(** * kit/redisx: typed accessors over a Redis hash and a Redis sorted set

    A shallow embedding of [redisx/hash_map.go] and [redisx/z_queue.go].
    The adapters are thin: every method encodes its arguments with the
    [typex] codec, sends one command (or one pipeline) to the go-redis
    client and decodes the reply.  The embedding keeps that shape:

    - Go values: [int64] and [time.Duration] are [Z], [float64] is a
      [spec_float] of binary64, [error] is an inductive, a Go result pair
      [(v, err)] is a Rocq pair with [option error];
    - the client is an interface: a method is a program ([Prog]) whose
      nodes are the commands it sends and whose continuations consume the
      replies; the receiver is threaded through as explicit state;
    - [store.Store] is an executable reference model of the server behind
      the client, used where a statement speaks about what the store
      holds;
    - names follow the Go source; [Set_], [Count_] and [Score_] carry an
      underscore where the plain name is taken. *)

From Stdlib Require Import ZArith Lia Bool Ascii String.
From Stdlib Require Import DecimalString DecimalZ SpecFloat.
From stdpp Require Import gmap strings list fin_maps.

Open Scope Z_scope.

(** ** Go base types *)

Definition int64 := Z.
Definition Duration := Z.
Definition float64 := spec_float.

Definition min_int64 : Z := - 2 ^ 63.
Definition max_int64 : Z := 2 ^ 63 - 1.

Definition in_int64 (z : Z) : bool := (min_int64 <=? z) && (z <=? max_int64).

(** [float64(x)] for an integer [x]: the nearest binary64 value, ties to
    even. *)
Definition float64_of_int64 (x : int64) : float64 :=
  binary_normalize 53 1024 x 0 false.

(** The integer part of a finite float, fraction discarded. *)
Definition trunc_float (s : bool) (m : positive) (e : Z) : Z :=
  let a := if 0 <=? e then Z.pos m * 2 ^ e else Z.pos m / 2 ^ (- e) in
  if s then - a else a.

(** [int64(f)] for a float [f]: truncation towards zero.  Go leaves the
    result open when the value does not fit; the amd64 conversion yields
    the smallest int64 there (also for NaN and the infinities). *)
Definition int64_of_float64 (f : float64) : int64 :=
  match f with
  | S754_zero _ => 0
  | S754_finite s m e =>
      let z := trunc_float s m e in
      if in_int64 z then z else min_int64
  | S754_infinity _ | S754_nan => min_int64
  end.

(** Integers in decimal text. *)
Definition format_int (z : Z) : string :=
  NilZero.string_of_int (Z.to_int z).

Definition parse_int (s : string) : option Z :=
  Z.of_int <$> NilZero.int_of_string s.

(** ** Errors and the codec interface *)

(** A Go [error] value.  [redis_Nil] is go-redis's [redis.Nil], the reply for
    a missing key, field or member; [RemoteError] is any other failure the
    client reports; [ConversionError] comes from the codec. *)
Inductive error : Type :=
| redis_Nil
| RemoteError (msg : string)
| ConversionError (msg : string).

(** [errors.Is(err, redis.Nil)] *)
Definition is_redis_Nil (e : error) : bool :=
  match e with redis_Nil => true | _ => false end.

(** The functions of package [typex] the adapters call, per type argument:
    [typex.ToString(v)], [typex.ToAnyE[T](s)], [typex.ToAny[T](s)], and the
    zero value of [T] ([var res T]).  The package lives outside [redisx]:
    the adapters take it as an interface, and module [typex] below gives a
    model of it. *)
Class Typex (T : Type) : Type := {
  zero : T;
  ToString : T -> string;
  ToAnyE : string -> T * option error;
  ToAny : string -> T;
}.

(** ** The client interface *)

(** [redis.Z] as the adapters use it: the member is always a string. *)
Record redis_Z : Type := { Z_Score : float64; Z_Member : string }.

(** [redis.ZRangeBy] *)
Record ZRangeBy : Type :=
  { Min : string; Max : string; Offset : int64; Count : int64 }.

(** Commands queued on a [redis.Pipeliner]. *)
Inductive PipeCmd : Type :=
| P_HSet (key : string) (values : list (string * string))
| P_HIncrBy (key field : string) (incr : int64)
| P_HIncrByFloat (key field : string) (incr : float64)
| P_ZAdd (key : string) (members : list redis_Z)
| P_Expire (key : string) (expiration : Duration).

(** What a queued command holds once the pipeline has run. *)
Inductive PipeVal : Type :=
| IntVal (n : int64)
| FloatVal (f : float64)
| BoolVal (b : bool).

Record PipeResult : Type := { p_val : PipeVal; p_err : option error }.

(** [IntCmd.Val()] and [FloatCmd.Val()] of the [i]-th queued command; a
    command that was never filled in holds zero. *)
Definition IntCmd_Val (rs : list PipeResult) (i : nat) : int64 :=
  match rs !! i with
  | Some {| p_val := IntVal n |} => n
  | _ => 0
  end.

Definition FloatCmd_Val (rs : list PipeResult) (i : nat) : float64 :=
  match rs !! i with
  | Some {| p_val := FloatVal f |} => f
  | _ => S754_zero false
  end.

(** The calls the adapters make on [redis.UniversalClient], indexed by the
    type of what [.Result()] (or [.Err()]) gives back.  [Pipeline_Exec] is
    [pipe := Cli.Pipeline(); ...; pipe.Exec(ctx)] with the queued commands
    in order: the plain pipeline of go-redis, one round trip, not wrapped
    in MULTI/EXEC (that would be [TxPipeline]). *)
Inductive redisE : Type -> Type :=
| HGet (key field : string) : redisE (string * option error)
| HMGet (key : string) (fields : list string)
    : redisE (list (option string) * option error)
| HGetAll (key : string) : redisE (list (string * string) * option error)
| HDel (key : string) (fields : list string) : redisE (option error)
| HExists (key field : string) : redisE (bool * option error)
| HLen (key : string) : redisE (int64 * option error)
| HKeys (key : string) : redisE (list string * option error)
| HVals (key : string) : redisE (list string * option error)
| ZRem (key : string) (members : list string) : redisE (option error)
| ZRangeByScoreWithScores (key : string) (opt : ZRangeBy)
    : redisE (list redis_Z * option error)
| ZRevRangeByScoreWithScores (key : string) (opt : ZRangeBy)
    : redisE (list redis_Z * option error)
| ZPopMin (key : string) (count : int64) : redisE (list redis_Z * option error)
| ZPopMax (key : string) (count : int64) : redisE (list redis_Z * option error)
| ZRemRangeByScore (key min max : string) : redisE (int64 * option error)
| ZCard (key : string) : redisE (int64 * option error)
| ZCount (key min max : string) : redisE (int64 * option error)
| ZScore (key member : string) : redisE (float64 * option error)
| Pipeline_Exec (cmds : list PipeCmd)
    : redisE (list PipeResult * option error).

(** ** Programs over the client *)

(** A method body: it returns, or sends a command and goes on with the
    reply, or panics (an index out of range). *)
Inductive Prog (A : Type) : Type :=
| Ret (a : A)
| Vis {X : Type} (e : redisE X) (k : X -> Prog A)
| Panic (msg : string).

Arguments Ret {A} a.
Arguments Vis {A X} e k.
Arguments Panic {A} msg.

Fixpoint Prog_bind {A B : Type} (f : A -> Prog B) (p : Prog A) : Prog B :=
  match p with
  | Ret a => f a
  | Vis e k => Vis e (fun x => Prog_bind f (k x))
  | Panic msg => Panic msg
  end.

(** A method with a pointer receiver of type [R]: the receiver is state. *)
Record Method (R A : Type) : Type := MkMethod { call : R -> Prog (A * R) }.

Arguments MkMethod {R A} call.
Arguments call {R A} m r.

#[global] Instance Method_ret {R} : MRet (Method R) :=
  fun A a => MkMethod (fun r => Ret (a, r)).

#[global] Instance Method_bind {R} : MBind (Method R) :=
  fun A B f m =>
    MkMethod (fun r => Prog_bind (fun ar => call (f (fst ar)) (snd ar)) (call m r)).

(** Read a field of the receiver. *)
Definition recv {R A : Type} (proj : R -> A) : Method R A :=
  MkMethod (fun r => Ret (proj r, r)).

(** Send one command through the receiver's client. *)
Definition Cli {R X : Type} (e : redisE X) : Method R X :=
  MkMethod (fun r => Vis e (fun x => Ret (x, r))).

Definition panic {R A : Type} (msg : string) : Method R A :=
  MkMethod (fun _ => Panic msg).

(** ** Running a program against a client *)

(** A client: it answers every command and moves to a next state. *)
Definition Client (St : Type) : Type := forall X : Type, redisE X -> St -> X * St.

Inductive Request : Type :=
| Req {X : Type} (e : redisE X).

Inductive Outcome (A : Type) : Type :=
| Returned (a : A)
| Panicked (msg : string).

Arguments Returned {A} a.
Arguments Panicked {A} msg.

(** The result of a run: how the call ended, the client's state, and the
    commands sent, in order. *)
Record Run (St A : Type) : Type :=
  { outcome : Outcome A; final : St; sent : list Request }.

Arguments outcome {St A} r.
Arguments final {St A} r.
Arguments sent {St A} r.

Fixpoint run {St A : Type} (c : Client St) (p : Prog A) (s : St) : Run St A :=
  match p with
  | Ret a => {| outcome := Returned a; final := s; sent := [] |}
  | Panic msg => {| outcome := Panicked msg; final := s; sent := [] |}
  | Vis e k =>
      let '(x, s') := c _ e s in
      let r := run c (k x) s' in
      {| outcome := outcome r; final := final r; sent := Req e :: sent r |}
  end.

(** What a client answers to a command in a state, and the state it is in
    afterwards. *)
Definition reply {St X : Type} (c : Client St) (e : redisE X) (s : St) : X :=
  (c X e s).1.

Definition next {St X : Type} (c : Client St) (e : redisE X) (s : St) : St :=
  (c X e s).2.

(** A call that is one pipeline: [Exec] of [cmds] is all it sends, and what
    it returns is [result] of what [Exec] gave back. *)
Definition runs_batch {St A : Type} (c : Client St) (s : St) (p : Prog A)
    (cmds : list PipeCmd) (result : list PipeResult * option error -> A) : Prop :=
  run c p s
  = {| outcome := Returned (result (reply c (Pipeline_Exec cmds) s));
       final := next c (Pipeline_Exec cmds) s;
       sent := [Req (Pipeline_Exec cmds)] |}.

(** A call that is one command [e]: it returns [result] of the answer. *)
Definition runs_command {St A X : Type} (c : Client St) (s : St) (p : Prog A)
    (e : redisE X) (result : X -> A) : Prop :=
  run c p s
  = {| outcome := Returned (result (reply c e s));
       final := next c e s;
       sent := [Req e] |}.

(** The optional expiry refresh every write queues behind its command:
    [if expire > 0 { pipe.Expire(ctx, key, expire) }]. *)
Definition queue_Expire (key : string) (expire : Duration) : list PipeCmd :=
  if 0 <? expire then [P_Expire key expire] else [].

(** ** redisx/hash_map.go *)

Module hash_map.

(** [HashMap[K, V]]; the [Cli] field is the client the program runs
    against. *)
Record HashMap : Type := { Key : string }.

Definition NewHashMap (key : string) : HashMap := {| Key := key |}.

Section methods.
Context {K V : Type} `{Countable K} {TK : Typex K} {TV : Typex V}.

Definition Set_ (field : K) (value : V) (expire : Duration)
  : Method HashMap (option error) :=
  key ← recv Key;
  '(_, err) ← Cli (Pipeline_Exec
                     (P_HSet key [(ToString field, ToString value)]
                        :: queue_Expire key expire));
  mret err.

(** [values[typex.ToString(k)] = typex.ToString(v)] for every entry. *)
Definition encode_fields (fields : gmap K V) : gmap string string :=
  map_fold (fun k v values => <[ToString k := ToString v]> values) ∅ fields.

Definition SetMulti (fields : gmap K V) (expire : Duration)
  : Method HashMap (option error) :=
  if (size fields =? 0)%nat then mret None
  else
    let values := encode_fields fields in
    key ← recv Key;
    '(_, err) ← Cli (Pipeline_Exec
                       (P_HSet key (map_to_list values)
                          :: queue_Expire key expire));
    mret err.

Definition Get (field : K) : Method HashMap (V * option error) :=
  let res : V := zero in
  key ← recv Key;
  '(val, err) ← Cli (HGet key (ToString field));
  match err with
  | Some e => if is_redis_Nil e then mret (res, None) else mret (res, Some e)
  | None => mret (ToAnyE val)
  end.

(** The loop of [GetMulti]: [i] is the index of the head of [vals]. *)
Fixpoint GetMulti_loop (fields : list K) (i : nat)
    (vals : list (option string)) (result : gmap K V)
  : Method HashMap (gmap K V * option error) :=
  match vals with
  | [] => mret (result, None)
  | None :: vals' => GetMulti_loop fields (S i) vals' result
  | Some s :: vals' =>
      let '(v, err) := ToAnyE s in
      match err with
      | Some e => mret (∅, Some e)
      | None =>
          match fields !! i with
          | Some f => GetMulti_loop fields (S i) vals' (<[f := v]> result)
          | None => panic "index out of range"
          end
      end
  end.

Definition GetMulti (fields : list K)
  : Method HashMap (gmap K V * option error) :=
  if (length fields =? 0)%nat then mret (∅, None)
  else
    let fieldStrs := map ToString fields in
    key ← recv Key;
    '(vals, err) ← Cli (HMGet key fieldStrs);
    match err with
    | Some e => mret (∅, Some e)
    | None => GetMulti_loop fields 0 vals ∅
    end.

(** The loop of [GetAll] over the reply's entries, in the order the
    iteration visits them. *)
Fixpoint GetAll_loop (vals : list (string * string)) (result : gmap K V)
  : gmap K V * option error :=
  match vals with
  | [] => (result, None)
  | (k, v) :: vals' =>
      let '(key, err) := ToAnyE k in
      match err with
      | Some e => (∅, Some e)
      | None =>
          let '(val, err) := ToAnyE v in
          match err with
          | Some e => (∅, Some e)
          | None => GetAll_loop vals' (<[key := val]> result)
          end
      end
  end.

Definition GetAll : Method HashMap (gmap K V * option error) :=
  key ← recv Key;
  '(vals, err) ← Cli (HGetAll key);
  match err with
  | Some e => mret (∅, Some e)
  | None => mret (GetAll_loop vals ∅)
  end.

Definition Delete (fields : list K) : Method HashMap (option error) :=
  if (length fields =? 0)%nat then mret None
  else
    let fieldStrs := map ToString fields in
    key ← recv Key;
    Cli (HDel key fieldStrs).

Definition Exists (field : K) : Method HashMap (bool * option error) :=
  key ← recv Key;
  Cli (HExists key (ToString field)).

Definition Len : Method HashMap (int64 * option error) :=
  key ← recv Key;
  Cli (HLen key).

(** The loop of [Keys] and of [Values]: decode each string, append. *)
Fixpoint decode_loop {T : Type} {TT : Typex T} (strs : list string)
    (result : list T) : list T * option error :=
  match strs with
  | [] => (result, None)
  | s :: strs' =>
      let '(x, err) := ToAnyE s in
      match err with
      | Some e => ([], Some e)
      | None => decode_loop strs' (result ++ [x])
      end
  end.

Definition Keys : Method HashMap (list K * option error) :=
  key ← recv Key;
  '(keys, err) ← Cli (HKeys key);
  match err with
  | Some e => mret ([], Some e)
  | None => mret (decode_loop keys [])
  end.

Definition Values : Method HashMap (list V * option error) :=
  key ← recv Key;
  '(vals, err) ← Cli (HVals key);
  match err with
  | Some e => mret ([], Some e)
  | None => mret (decode_loop vals [])
  end.

Definition Incr (field : K) (increment : int64) (expire : Duration)
  : Method HashMap (int64 * option error) :=
  key ← recv Key;
  '(cmds, err) ← Cli (Pipeline_Exec
                        (P_HIncrBy key (ToString field) increment
                           :: queue_Expire key expire));
  match err with
  | Some e => mret (0, Some e)
  | None => mret (IntCmd_Val cmds 0, None)
  end.

Definition IncrFloat (field : K) (increment : float64) (expire : Duration)
  : Method HashMap (float64 * option error) :=
  key ← recv Key;
  '(cmds, err) ← Cli (Pipeline_Exec
                        (P_HIncrByFloat key (ToString field) increment
                           :: queue_Expire key expire));
  match err with
  | Some e => mret (S754_zero false, Some e)
  | None => mret (FloatCmd_Val cmds 0, None)
  end.

End methods.

End hash_map.

(** ** redisx/z_queue.go *)

Module z_queue.

(** [Element[T]] *)
Record Element (T : Type) : Type := { Member : T; Score : int64 }.

Arguments Member {T} e.
Arguments Score {T} e.

(** [ElementList[T].Members] *)
Definition Members {T : Type} (e : list (Element T)) : list T :=
  map Member e.

(** [ZQueue[T]]; the [Cli] field is the client the program runs
    against.  [Desc] is true for descending order. *)
Record ZQueue : Type := { Key : string; Desc : bool }.

Section methods.
Context {T : Type} {TT : Typex T} {TI : Typex int64}.

Definition redisZToElement (z : redis_Z) : Element T :=
  {| Member := ToAny (Z_Member z);
     Score := int64_of_float64 (Z_Score z) |}.

Definition redisZToElements (zs : list redis_Z) : list (Element T) :=
  map redisZToElement zs.

Definition Add (member : T) (score : int64) (expire : Duration)
  : Method ZQueue (option error) :=
  key ← recv Key;
  '(_, err) ← Cli (Pipeline_Exec
                     (P_ZAdd key [ {| Z_Score := float64_of_int64 score;
                                      Z_Member := ToString member |} ]
                        :: queue_Expire key expire));
  mret err.

Definition AddMulti (elements : list (Element T)) (expire : Duration)
  : Method ZQueue (option error) :=
  let members :=
    map (fun elem => {| Z_Score := float64_of_int64 (Score elem);
                        Z_Member := ToString (Member elem) |}) elements in
  key ← recv Key;
  '(_, err) ← Cli (Pipeline_Exec
                     (P_ZAdd key members :: queue_Expire key expire));
  mret err.

Definition Remove (member : T) : Method ZQueue (option error) :=
  key ← recv Key;
  Cli (ZRem key [ToString member]).

Definition RemoveMulti (members : list T) : Method ZQueue (option error) :=
  let memberStrs := map ToString members in
  key ← recv Key;
  Cli (ZRem key memberStrs).

Definition rangeByScoreInternal (minScore maxScore offset count : int64)
    (desc : bool) : Method ZQueue (list (Element T) * option error) :=
  let minS := if negb (minScore =? -1) then ToString minScore else "-inf" in
  let maxS := if negb (maxScore =? -1) then ToString maxScore else "+inf" in
  let opt := {| Min := minS; Max := maxS; Offset := offset; Count := count |} in
  key ← recv Key;
  '(zs, err) ← (if desc
                then Cli (ZRevRangeByScoreWithScores key opt)
                else Cli (ZRangeByScoreWithScores key opt));
  match err with
  | Some e => mret ([], Some e)
  | None => mret (redisZToElements zs, None)
  end.

Definition RangeByScore (minScore maxScore : int64)
  : Method ZQueue (list (Element T) * option error) :=
  desc ← recv Desc;
  rangeByScoreInternal minScore maxScore 0 (-1) desc.

Definition RangeByScoreWithLimit (minScore maxScore offset count : int64)
  : Method ZQueue (list (Element T) * option error) :=
  desc ← recv Desc;
  rangeByScoreInternal minScore maxScore offset count desc.

Definition RangeFromScore (minScore : int64)
  : Method ZQueue (list (Element T) * option error) :=
  desc ← recv Desc;
  rangeByScoreInternal minScore (-1) 0 (-1) desc.

Definition RangeToScore (maxScore : int64)
  : Method ZQueue (list (Element T) * option error) :=
  desc ← recv Desc;
  rangeByScoreInternal (-1) maxScore 0 (-1) desc.

Definition RangeByScoreRev (minScore maxScore : int64)
  : Method ZQueue (list (Element T) * option error) :=
  desc ← recv Desc;
  rangeByScoreInternal minScore maxScore 0 (-1) (negb desc).

Definition RangeByScoreWithLimitRev (minScore maxScore offset count : int64)
  : Method ZQueue (list (Element T) * option error) :=
  desc ← recv Desc;
  rangeByScoreInternal minScore maxScore offset count (negb desc).

Definition RangeFromScoreRev (minScore : int64)
  : Method ZQueue (list (Element T) * option error) :=
  desc ← recv Desc;
  rangeByScoreInternal minScore (-1) 0 (-1) (negb desc).

Definition RangeToScoreRev (maxScore : int64)
  : Method ZQueue (list (Element T) * option error) :=
  desc ← recv Desc;
  rangeByScoreInternal (-1) maxScore 0 (-1) (negb desc).

Definition PopMin : Method ZQueue (option (Element T) * option error) :=
  key ← recv Key;
  '(zs, err) ← Cli (ZPopMin key 1);
  match err with
  | Some e => mret (None, Some e)
  | None =>
      match zs with
      | [] => mret (None, None)
      | z :: _ => let elem := redisZToElement z in mret (Some elem, None)
      end
  end.

Definition PopMax : Method ZQueue (option (Element T) * option error) :=
  key ← recv Key;
  '(zs, err) ← Cli (ZPopMax key 1);
  match err with
  | Some e => mret (None, Some e)
  | None =>
      match zs with
      | [] => mret (None, None)
      | z :: _ => let elem := redisZToElement z in mret (Some elem, None)
      end
  end.

Definition PopMinMulti (count : int64)
  : Method ZQueue (list (Element T) * option error) :=
  key ← recv Key;
  '(zs, err) ← Cli (ZPopMin key count);
  match err with
  | Some e => mret ([], Some e)
  | None => mret (redisZToElements zs, None)
  end.

Definition PopMaxMulti (count : int64)
  : Method ZQueue (list (Element T) * option error) :=
  key ← recv Key;
  '(zs, err) ← Cli (ZPopMax key count);
  match err with
  | Some e => mret ([], Some e)
  | None => mret (redisZToElements zs, None)
  end.

Definition RemoveRangeByScore (min max : string)
  : Method ZQueue (int64 * option error) :=
  key ← recv Key;
  Cli (ZRemRangeByScore key min max).

Definition Count_ : Method ZQueue (int64 * option error) :=
  key ← recv Key;
  Cli (ZCard key).

Definition CountByScore (min max : string)
  : Method ZQueue (int64 * option error) :=
  key ← recv Key;
  Cli (ZCount key min max).

Definition Score_ (member : T) : Method ZQueue (int64 * option error) :=
  key ← recv Key;
  '(score, err) ← Cli (ZScore key (ToString member));
  match err with
  | Some e => mret (0, Some e)
  | None => mret (int64_of_float64 score, None)
  end.

End methods.

End z_queue.

(** ** A reference store

    What the server behind the client does with each command, as far as
    the adapters can observe it: one keyspace of hashes and sorted sets
    with an expiry per key.  A sorted set is kept in the server's order,
    ascending by score and then by member.  Numerals in text are read as
    decimal integers only (the adapters write no others): a score bound or
    a counter in another notation is rejected here, and so is
    HINCRBYFLOAT, which needs the server's decimal rendering of a double. *)

Module store.

Inductive Value : Type :=
| Hash (h : gmap string string)
| ZSet (zs : list redis_Z).

Record Store : Type :=
  { data : gmap string Value; expiry : gmap string Duration }.

Definition empty : Store := {| data := ∅; expiry := ∅ |}.

Definition WRONGTYPE : error :=
  RemoteError "WRONGTYPE Operation against a key holding the wrong kind of value".
Definition ERR_arity : error :=
  RemoteError "ERR wrong number of arguments".
Definition ERR_not_integer : error :=
  RemoteError "ERR hash value is not an integer".
Definition ERR_overflow : error :=
  RemoteError "ERR increment or decrement would overflow".
Definition ERR_not_float : error :=
  RemoteError "ERR min or max is not a float".
Definition ERR_nan : error :=
  RemoteError "ERR value is not a valid float".
Definition ERR_range : error :=
  RemoteError "ERR value is out of range, must be positive".
Definition ERR_unsupported : error :=
  RemoteError "ERR not supported by the reference store".

(** A missing key reads as an empty container. *)
Definition get_hash (s : Store) (key : string) : gmap string string + error :=
  match data s !! key with
  | None => inl ∅
  | Some (Hash h) => inl h
  | Some (ZSet _) => inr WRONGTYPE
  end.

Definition get_zset (s : Store) (key : string) : list redis_Z + error :=
  match data s !! key with
  | None => inl []
  | Some (ZSet zs) => inl zs
  | Some (Hash _) => inr WRONGTYPE
  end.

Definition remove_key (s : Store) (key : string) : Store :=
  {| data := delete key (data s); expiry := delete key (expiry s) |}.

(** A container that became empty is removed with its key. *)
Definition put_hash (s : Store) (key : string) (h : gmap string string) : Store :=
  if (size h =? 0)%nat then remove_key s key
  else {| data := <[key := Hash h]> (data s); expiry := expiry s |}.

Definition put_zset (s : Store) (key : string) (zs : list redis_Z) : Store :=
  match zs with
  | [] => remove_key s key
  | _ => {| data := <[key := ZSet zs]> (data s); expiry := expiry s |}
  end.

(** *** Sorted-set order and score windows *)

Definition z_lt (a b : redis_Z) : bool :=
  match SFcompare (Z_Score a) (Z_Score b) with
  | Some Lt => true
  | Some Eq =>
      match String.compare (Z_Member a) (Z_Member b) with
      | Lt => true
      | _ => false
      end
  | _ => false
  end.

Fixpoint z_insert (x : redis_Z) (zs : list redis_Z) : list redis_Z :=
  match zs with
  | [] => [x]
  | y :: zs' => if z_lt x y then x :: y :: zs' else y :: z_insert x zs'
  end.

Definition z_remove (member : string) (zs : list redis_Z) : list redis_Z :=
  filter (fun y => Z_Member y ≠ member) zs.

(** Adding a member that is present moves it to its new score. *)
Definition z_add (x : redis_Z) (zs : list redis_Z) : list redis_Z :=
  z_insert x (z_remove (Z_Member x) zs).

Definition z_find (member : string) (zs : list redis_Z) : option redis_Z :=
  head (filter (fun y => Z_Member y = member) zs).

Inductive Bound : Type :=
| NegInf
| PosInf
| Incl (f : float64)
| Excl (f : float64).

Definition parse_bound (s : string) : option Bound :=
  if bool_decide (s = "-inf") then Some NegInf
  else if bool_decide (s = "+inf") || bool_decide (s = "inf") then Some PosInf
  else
    match s with
    | String "("%char s' => (fun z => Excl (float64_of_int64 z)) <$> parse_int s'
    | _ => (fun z => Incl (float64_of_int64 z)) <$> parse_int s
    end.

Definition above (lo : Bound) (x : float64) : bool :=
  match lo with
  | NegInf => true
  | PosInf => SFleb (S754_infinity false) x
  | Incl f => SFleb f x
  | Excl f => SFltb f x
  end.

Definition below (hi : Bound) (x : float64) : bool :=
  match hi with
  | PosInf => true
  | NegInf => SFleb x (S754_infinity true)
  | Incl f => SFleb x f
  | Excl f => SFltb x f
  end.

Definition in_window (lo hi : Bound) (z : redis_Z) : bool :=
  above lo (Z_Score z) && below hi (Z_Score z).

(** [LIMIT offset count] of the server: a negative count takes
    everything from the offset on, a negative offset nothing. *)
Definition LIMIT {A : Type} (offset count : int64) (l : list A) : list A :=
  if offset <? 0 then []
  else
    let l' := drop (Z.to_nat offset) l in
    if count <? 0 then l' else take (Z.to_nat count) l'.

(** go-redis appends [LIMIT] only when offset or count is not zero. *)
Definition paginate {A : Type} (opt : ZRangeBy) (l : list A) : list A :=
  if (Offset opt =? 0) && (Count opt =? 0) then l
  else LIMIT (Offset opt) (Count opt) l.

Definition range_by_score (s : Store) (key : string) (opt : ZRangeBy)
    (rev : bool) : list redis_Z * option error :=
  match parse_bound (Min opt), parse_bound (Max opt) with
  | Some lo, Some hi =>
      match get_zset s key with
      | inr e => ([], Some e)
      | inl zs =>
          let hits := List.filter (in_window lo hi) zs in
          (paginate opt (if rev then reverse hits else hits), None)
      end
  | _, _ => ([], Some ERR_not_float)
  end.

(** ZPOPMIN / ZPOPMAX with a count. *)
Definition pop (s : Store) (key : string) (count : int64) (max : bool)
    : (list redis_Z * option error) * Store :=
  match get_zset s key with
  | inr e => (([], Some e), s)
  | inl zs =>
      if count <? 0 then (([], Some ERR_range), s)
      else
        let n := Z.to_nat count in
        if max
        then ((take n (reverse zs), None),
              put_zset s key (take (length zs - n) zs))
        else ((take n zs, None), put_zset s key (drop n zs))
  end.

(** *** Queued commands *)

Definition is_nan (f : float64) : bool :=
  match f with S754_nan => true | _ => false end.

Definition failed (e : error) : PipeResult :=
  {| p_val := IntVal 0; p_err := Some e |}.

Definition done_int (n : Z) : PipeResult :=
  {| p_val := IntVal n; p_err := None |}.

Definition exec_cmd (c : PipeCmd) (s : Store) : PipeResult * Store :=
  match c with
  | P_HSet key values =>
      match values, get_hash s key with
      | [], _ => (failed ERR_arity, s)
      | _, inr e => (failed e, s)
      | _, inl h =>
          let h' := foldl (fun m fv => <[fv.1 := fv.2]> m) h values in
          (done_int (Z.of_nat (size h' - size h)), put_hash s key h')
      end
  | P_HIncrBy key field incr =>
      match get_hash s key with
      | inr e => (failed e, s)
      | inl h =>
          match from_option parse_int (Some 0) (h !! field) with
          | None => (failed ERR_not_integer, s)
          | Some old =>
              if in_int64 old then
                if in_int64 (old + incr)
                then (done_int (old + incr),
                      put_hash s key (<[field := format_int (old + incr)]> h))
                else (failed ERR_overflow, s)
              else (failed ERR_not_integer, s)
          end
      end
  | P_HIncrByFloat key field incr =>
      ({| p_val := FloatVal (S754_zero false); p_err := Some ERR_unsupported |}, s)
  | P_ZAdd key members =>
      match members, get_zset s key with
      | [], _ => (failed ERR_arity, s)
      | _, inr e => (failed e, s)
      | _, inl zs =>
          if existsb (fun z => is_nan (Z_Score z)) members
          then (failed ERR_nan, s)
          else
            let zs' := foldl (fun l z => z_add z l) zs members in
            (done_int (Z.of_nat (length zs' - length zs)), put_zset s key zs')
      end
  | P_Expire key expiration =>
      match data s !! key with
      | None => ({| p_val := BoolVal false; p_err := None |}, s)
      | Some _ =>
          ({| p_val := BoolVal true; p_err := None |},
           if expiration <=? 0 then remove_key s key
           else {| data := data s; expiry := <[key := expiration]> (expiry s) |})
      end
  end.

Fixpoint exec_cmds (cmds : list PipeCmd) (s : Store) : list PipeResult * Store :=
  match cmds with
  | [] => ([], s)
  | c :: cmds' =>
      let '(r, s') := exec_cmd c s in
      let '(rs, s'') := exec_cmds cmds' s' in
      (r :: rs, s'')
  end.

(** [Exec] reports the error of the first command that failed. *)
Fixpoint first_error (rs : list PipeResult) : option error :=
  match rs with
  | [] => None
  | r :: rs' =>
      match p_err r with
      | Some e => Some e
      | None => first_error rs'
      end
  end.

(** *** The client over the store *)

Definition client : Client Store :=
  fun X (e : redisE X) (s : Store) =>
    match e in redisE X return X * Store with
    | HGet key field =>
        match get_hash s key with
        | inr e => (("", Some e), s)
        | inl h =>
            match h !! field with
            | Some v => ((v, None), s)
            | None => (("", Some redis_Nil), s)
            end
        end
    | HMGet key fields =>
        match fields, get_hash s key with
        | [], _ => (([], Some ERR_arity), s)
        | _, inr e => (([], Some e), s)
        | _, inl h => ((map (fun f => h !! f) fields, None), s)
        end
    | HGetAll key =>
        match get_hash s key with
        | inr e => (([], Some e), s)
        | inl h => ((map_to_list h, None), s)
        end
    | HDel key fields =>
        match fields, get_hash s key with
        | [], _ => (Some ERR_arity, s)
        | _, inr e => (Some e, s)
        | _, inl h => (None, put_hash s key (foldl (fun m f => delete f m) h fields))
        end
    | HExists key field =>
        match get_hash s key with
        | inr e => ((false, Some e), s)
        | inl h => ((bool_decide (is_Some (h !! field)), None), s)
        end
    | HLen key =>
        match get_hash s key with
        | inr e => ((0, Some e), s)
        | inl h => ((Z.of_nat (size h), None), s)
        end
    | HKeys key =>
        match get_hash s key with
        | inr e => (([], Some e), s)
        | inl h => (((map_to_list h).*1, None), s)
        end
    | HVals key =>
        match get_hash s key with
        | inr e => (([], Some e), s)
        | inl h => (((map_to_list h).*2, None), s)
        end
    | ZRem key members =>
        match members, get_zset s key with
        | [], _ => (Some ERR_arity, s)
        | _, inr e => (Some e, s)
        | _, inl zs =>
            (None, put_zset s key (foldl (fun l m => z_remove m l) zs members))
        end
    | ZRangeByScoreWithScores key opt => (range_by_score s key opt false, s)
    | ZRevRangeByScoreWithScores key opt => (range_by_score s key opt true, s)
    | ZPopMin key count => pop s key count false
    | ZPopMax key count => pop s key count true
    | ZRemRangeByScore key min max =>
        match parse_bound min, parse_bound max with
        | Some lo, Some hi =>
            match get_zset s key with
            | inr e => ((0, Some e), s)
            | inl zs =>
                let keep := List.filter (fun z => negb (in_window lo hi z)) zs in
                ((Z.of_nat (length zs - length keep), None), put_zset s key keep)
            end
        | _, _ => ((0, Some ERR_not_float), s)
        end
    | ZCard key =>
        match get_zset s key with
        | inr e => ((0, Some e), s)
        | inl zs => ((Z.of_nat (length zs), None), s)
        end
    | ZCount key min max =>
        match parse_bound min, parse_bound max with
        | Some lo, Some hi =>
            match get_zset s key with
            | inr e => ((0, Some e), s)
            | inl zs =>
                ((Z.of_nat (length (List.filter (in_window lo hi) zs)), None), s)
            end
        | _, _ => ((0, Some ERR_not_float), s)
        end
    | ZScore key member =>
        match get_zset s key with
        | inr e => ((S754_zero false, Some e), s)
        | inl zs =>
            match z_find member zs with
            | Some z => ((Z_Score z, None), s)
            | None => ((S754_zero false, Some redis_Nil), s)
            end
        end
    | Pipeline_Exec cmds =>
        let '(rs, s') := exec_cmds cmds s in
        ((rs, first_error rs), s')
    end.

End store.

(** ** Package typex *)

Module typex.

(** Modelled from the spec: the types the codec supports.  Package
    [typex] is not among the sources; the design names "integers,
    floats, strings, booleans, and struct/composite types" (4.1).
    [Struct a b] is a composite of two fields, [Slice a] a sequence;
    larger composites nest. *)
Inductive ty : Type :=
| Int64
| Float64
| String_
| Bool
| Struct (a b : ty)
| Slice (a : ty).

Fixpoint val (t : ty) : Type :=
  match t with
  | Int64 => int64
  | Float64 => float64
  | String_ => string
  | Bool => bool
  | Struct a b => val a * val b
  | Slice a => list (val a)
  end.

(** The values of the Go type: an [int64] is in range, a [float64] is a
    binary64 number. *)
Fixpoint wf (t : ty) : val t -> Prop :=
  match t with
  | Int64 => fun z => in_int64 z = true
  | Float64 => fun f => valid_binary 53 1024 f = true
  | String_ => fun _ => True
  | Bool => fun _ => True
  | Struct a b => fun xy => wf a xy.1 /\ wf b xy.2
  | Slice a => fun xs => Forall (wf a) xs
  end.

Fixpoint zero_of (t : ty) : val t :=
  match t with
  | Int64 => 0
  | Float64 => S754_zero false
  | String_ => ""
  | Bool => false
  | Struct a b => (zero_of a, zero_of b)
  | Slice a => []
  end.

(** *** Text helpers *)

Fixpoint split_on (c : ascii) (s : string) : option (string * string) :=
  match s with
  | EmptyString => None
  | String a s' =>
      if Ascii.eqb a c then Some (EmptyString, s')
      else (fun p => (String a p.1, p.2)) <$> split_on c s'
  end.

Fixpoint take_str (n : nat) (s : string) : string :=
  match n, s with
  | S n', String a s' => String a (take_str n' s')
  | _, _ => EmptyString
  end.

Fixpoint drop_str (n : nat) (s : string) : string :=
  match n, s with
  | S n', String _ s' => drop_str n' s'
  | _, _ => s
  end.

(** A field of a composite: its length in decimal, a colon, its text. *)
Definition frame (s : string) : string :=
  format_int (Z.of_nat (String.length s)) +:+ String ":"%char s.

(** Read one field off the front: the field and what follows it. *)
Definition unframe (s : string) : option (string * string) :=
  match split_on ":"%char s with
  | None => None
  | Some (len, rest) =>
      match parse_int len with
      | None => None
      | Some n =>
          if (0 <=? n) && (n <=? Z.of_nat (String.length rest))
          then Some (take_str (Z.to_nat n) rest, drop_str (Z.to_nat n) rest)
          else None
      end
  end.

(** All the fields of a text, at most [fuel] of them. *)
Fixpoint unframe_all (fuel : nat) (s : string) : option (list string) :=
  match s with
  | EmptyString => Some []
  | _ =>
      match fuel with
      | O => None
      | S fuel' =>
          match unframe s with
          | None => None
          | Some (x, rest) => (fun xs => x :: xs) <$> unframe_all fuel' rest
          end
      end
  end.

(** *** encode *)

Definition encode_float (f : float64) : string :=
  match f with
  | S754_nan => "NaN"
  | S754_infinity false => "+Inf"
  | S754_infinity true => "-Inf"
  | S754_zero false => "+0p0"
  | S754_zero true => "-0p0"
  | S754_finite s m e =>
      String (if s then "-" else "+")%char
        (format_int (Z.pos m) +:+ String "p"%char (format_int e))
  end.

(** Modelled from the spec: [encode(v) -> string] ([typex.ToString]),
    which is not among the sources: "a deterministic, round-trippable
    string for every supported type", composites "via a structured text
    encoding"; it never fails.  Integers are written in decimal,
    booleans as [true]/[false], strings as they are, floats as sign,
    mantissa, [p], binary exponent, composites as their fields, each framed by its
    length. *)
Fixpoint encode (t : ty) : val t -> string :=
  match t with
  | Int64 => format_int
  | Float64 => encode_float
  | String_ => fun s => s
  | Bool => fun b => if b then "true" else "false"
  | Struct a b => fun xy => frame (encode a xy.1) +:+ frame (encode b xy.2)
  | Slice a => fun xs => foldr (fun x acc => frame (encode a x) +:+ acc) "" xs
  end.

(** *** decode *)

Definition decode_int (s : string) : int64 * option error :=
  match parse_int s with
  | Some z =>
      if in_int64 z then (z, None)
      else (0, Some (ConversionError "value out of range"))
  | None => (0, Some (ConversionError "invalid syntax"))
  end.

Definition decode_finite (neg : bool) (s : string) : option float64 :=
  match split_on "p"%char s with
  | None => None
  | Some (ms, es) =>
      match parse_int ms, parse_int es with
      | Some (Z.pos m), Some e => Some (S754_finite neg m e)
      | Some 0, Some 0 => Some (S754_zero neg)
      | _, _ => None
      end
  end.

Definition decode_float (s : string) : float64 * option error :=
  let bad := (S754_zero false, Some (ConversionError "invalid syntax")) in
  let r := match s with
           | String "+"%char s' => decode_finite false s'
           | String "-"%char s' => decode_finite true s'
           | _ => None
           end in
  match r with
  | Some f => if valid_binary 53 1024 f then (f, None) else bad
  | None =>
      if bool_decide (s = "NaN") then (S754_nan, None)
      else if bool_decide (s = "+Inf") then (S754_infinity false, None)
      else if bool_decide (s = "-Inf") then (S754_infinity true, None)
      else bad
  end.

Definition decode_bool (s : string) : bool * option error :=
  if bool_decide (s = "true") then (true, None)
  else if bool_decide (s = "false") then (false, None)
  else (false, Some (ConversionError "invalid syntax")).

(** Decode every text of a list; the first failure ends it. *)
Fixpoint decode_each {A : Type} (dec : string -> A * option error)
    (l : list string) : list A * option error :=
  match l with
  | [] => ([], None)
  | s :: l' =>
      match dec s with
      | (_, Some e) => ([], Some e)
      | (x, None) =>
          match decode_each dec l' with
          | (_, Some e) => ([], Some e)
          | (xs, None) => (x :: xs, None)
          end
      end
  end.

(** Modelled from the spec: [decode<T>(s) -> (T, error)]
    ([typex.ToAnyE]), which is not among the sources: it "fails with a
    ConversionError when [s] cannot be parsed into [T]"; on failure the
    value is the zero value of [T]. *)
Fixpoint decode (t : ty) : string -> val t * option error :=
  match t with
  | Int64 => decode_int
  | Float64 => decode_float
  | String_ => fun s => (s, None)
  | Bool => decode_bool
  | Struct a b => fun s =>
      let bad := (zero_of (Struct a b),
                  Some (ConversionError "malformed composite")) in
      match unframe s with
      | None => bad
      | Some (xs, rest) =>
          match unframe rest with
          | Some (ys, EmptyString) =>
              match decode a xs, decode b ys with
              | (x, None), (y, None) => ((x, y), None)
              | (_, Some e), _ => (zero_of (Struct a b), Some e)
              | _, (_, Some e) => (zero_of (Struct a b), Some e)
              end
          | _ => bad
          end
      end
  | Slice a => fun s =>
      match unframe_all (String.length s) s with
      | None => ([], Some (ConversionError "malformed composite"))
      | Some l => decode_each (decode a) l
      end
  end.

(** Modelled from the spec: [typex.ToAny], which is not among the
    sources and for which the design has no words of its own: the
    variant of [decode] whose Go signature has no error result; the
    error is dropped and the value kept. *)
Definition decode_any (t : ty) (s : string) : val t := (decode t s).1.

Definition codec (t : ty) : Typex (val t) :=
  {| zero := zero_of t;
     ToString := encode t;
     ToAnyE := decode t;
     ToAny := decode_any t |}.

#[global] Instance Typex_int64 : Typex int64 := codec Int64.
#[global] Instance Typex_float64 : Typex float64 := codec Float64.
#[global] Instance Typex_string : Typex string := codec String_.
#[global] Instance Typex_bool : Typex bool := codec Bool.

End typex.

(** ** What a range call sends and returns *)

(** The command for a direction: descending reads the set in reverse. *)
Definition range_command (desc : bool) (key : string) (opt : ZRangeBy)
  : redisE (list redis_Z * option error) :=
  if desc then ZRevRangeByScoreWithScores key opt
  else ZRangeByScoreWithScores key opt.

(** The window and page a range call asks for. *)
Definition range_opt {TI : Typex int64} (minScore maxScore offset count : int64)
  : ZRangeBy :=
  {| Min := if negb (minScore =? -1) then ToString minScore else "-inf";
     Max := if negb (maxScore =? -1) then ToString maxScore else "+inf";
     Offset := offset;
     Count := count |}.

(** What a range call makes of the answer, beside the receiver [q]. *)
Definition range_result {T : Type} {TT : Typex T} (q : z_queue.ZQueue)
    (r : list redis_Z * option error)
  : list (z_queue.Element T) * option error * z_queue.ZQueue :=
  (match r.2 with
   | Some e => ([], Some e)
   | None => (z_queue.redisZToElements r.1, None)
   end, q).

(** What [PopMin] and [PopMax] make of the answer: a pointer to the first
    element, nil when there is none. *)
Definition pop_one_result {T : Type} {TT : Typex T} (q : z_queue.ZQueue)
    (r : list redis_Z * option error)
  : option (z_queue.Element T) * option error * z_queue.ZQueue :=
  (match r.2 with
   | Some e => (None, Some e)
   | None =>
       match r.1 with
       | [] => (None, None)
       | z :: _ => (Some (z_queue.redisZToElement z), None)
       end
   end, q).

(** The receiver as a call left it. *)
Definition receiver_after {St A R : Type} (r : Run St (A * R)) : option R :=
  match outcome r with
  | Returned (_, q) => Some q
  | Panicked _ => None
  end.

(** ** Entries that do not decode *)

(** A field of the hash whose name or value [typex.ToAnyE] rejects. *)
Definition undecodable_entry {K V : Type} {TK : Typex K} {TV : Typex V}
    (kv : string * string) : Prop :=
  (ToAnyE (T := K) kv.1).2 ≠ None \/ (ToAnyE (T := V) kv.2).2 ≠ None.

(** A present value [typex.ToAnyE] rejects. *)
Definition undecodable_value {V : Type} {TV : Typex V} (o : option string) : Prop :=
  exists str, o = Some str /\ (ToAnyE (T := V) str).2 ≠ None.

(** ** The keys a call names *)

Definition PipeCmd_key (c : PipeCmd) : string :=
  match c with
  | P_HSet key _ | P_HIncrBy key _ _ | P_HIncrByFloat key _ _
  | P_ZAdd key _ | P_Expire key _ => key
  end.

(** The container keys a command names; for a pipeline, those of the
    commands queued on it. *)
Definition redisE_keys {X : Type} (e : redisE X) : list string :=
  match e with
  | HGet key _ | HMGet key _ | HGetAll key | HDel key _ | HExists key _
  | HLen key | HKeys key | HVals key | ZRem key _
  | ZRangeByScoreWithScores key _ | ZRevRangeByScoreWithScores key _
  | ZPopMin key _ | ZPopMax key _ | ZRemRangeByScore key _ _
  | ZCard key | ZCount key _ _ | ZScore key _ => [key]
  | Pipeline_Exec cmds => map PipeCmd_key cmds
  end.

Definition Request_keys (r : Request) : list string :=
  match r with Req e => redisE_keys e end.

(** A run that made at most one round trip, named no key but [key], and,
    where it returned, gave back the receiver [recv]. *)
Definition one_trip_on {St A R : Type} (key : string) (recv : R)
    (r : Run St (A * R)) : Prop :=
  (length (sent r) <= 1)%nat
  /\ Forall (fun rq => Forall (eq key) (Request_keys rq)) (sent r)
  /\ (forall (a : A) (q' : R), outcome r = Returned (a, q') -> q' = recv).


(** * Properties *)

(** ** The float64 image of an integer *)

Section Float64OfInt.

Lemma digits2_pos_size (p : positive) : digits2_pos p = Pos.size p.
Proof. induction p as [p IH | p IH |]; simpl; congruence. Qed.

Lemma digits2_pos_bound (p : positive) (n : Z) :
  0 <= n -> Z.pos p < 2 ^ n -> Z.pos (digits2_pos p) <= n.
Proof.
  intros Hn Hp. rewrite digits2_pos_size.
  destruct (Z.le_gt_cases (Z.pos (Pos.size p)) n) as [|Hgt]; [assumption|].
  exfalso.
  pose proof (Pos.size_le p) as Hle.
  assert (Hpow : 2 ^ (n + 1) <= 2 ^ Z.pos (Pos.size p))
    by (apply Z.pow_le_mono_r; lia).
  rewrite Z.pow_add_r in Hpow by lia.
  assert (Hc : (2 ^ Pos.size p <= p~0)%positive) by exact Hle.
  apply Pos2Z.pos_le_pos in Hc. rewrite Pos2Z.inj_pow in Hc.
  rewrite Pos2Z.inj_xO in Hc. lia.
Qed.

Lemma iter_xO_pos (m k : positive) :
  Z.pos (Pos.iter xO m k) = Z.pos m * 2 ^ Z.pos k.
Proof.
  induction k as [| k IH] using Pos.peano_ind.
  - simpl. lia.
  - rewrite Pos.iter_succ, Pos2Z.inj_xO, IH, Pos2Z.inj_succ.
    rewrite Z.pow_succ_r by lia. lia.
Qed.

Lemma digits2_pos_iter_xO (m k : positive) :
  digits2_pos (Pos.iter xO m k) = (digits2_pos m + k)%positive.
Proof.
  induction k as [| k IH] using Pos.peano_ind.
  - simpl. lia.
  - rewrite Pos.iter_succ. simpl. rewrite IH. lia.
Qed.

(** A 53-bit mantissa with an exponent in range is already rounded. *)
Lemma binary_round_aux_canonical (s : bool) (m : positive) (e : Z) :
  Z.pos (digits2_pos m) = 53 -> -1074 <= e <= 971 ->
  binary_round_aux 53 1024 s (Z.pos m) e loc_Exact = S754_finite s m e.
Proof.
  intros Hd He.
  assert (Hs : shr_fexp 53 1024 (Z.pos m) e loc_Exact
               = ({| shr_m := Z.pos m; shr_r := false; shr_s := false |}, e)).
  { unfold shr_fexp, fexp, emin, Zdigits2. rewrite Hd.
    replace (Z.max (53 + e - 53) (3 - 1024 - 53) - e) with 0 by lia.
    reflexivity. }
  unfold binary_round_aux. rewrite Hs. cbn [shr_m loc_of_shr_record round_nearest_even].
  rewrite Hs. cbn [shr_m].
  destruct (e <=? 1024 - 53) eqn:E; [reflexivity | lia].
Qed.

(** An integer of at most 53 bits is a binary64 value: the conversion
    only shifts the mantissa left to its canonical position. *)
Lemma binary_round_small (s : bool) (p : positive) :
  Z.pos p < 2 ^ 53 ->
  exists m e, binary_round 53 1024 s p 0 = S754_finite s m e
              /\ -53 < e <= 0 /\ Z.pos m = Z.pos p * 2 ^ (- e).
Proof.
  intros Hp.
  pose proof (digits2_pos_bound p 53 ltac:(lia) Hp) as Hd.
  unfold binary_round, shl_align, fexp, emin.
  remember (digits2_pos p) as d eqn:Ed.
  replace (Z.max (Z.pos d + 0 - 53) (3 - 1024 - 53)) with (Z.pos d - 53) by lia.
  destruct (Z.pos d - 53 - 0) as [| k | k] eqn:Ek; try lia.
  - exists p, 0. split; [| split; [lia | simpl; lia]].
    apply binary_round_aux_canonical; lia.
  - exists (Pos.iter xO p k), (Z.pos d - 53).
    split; [| split; [lia |]].
    + apply binary_round_aux_canonical; [| lia].
      rewrite digits2_pos_iter_xO, <- Ed. lia.
    + rewrite iter_xO_pos. f_equal. f_equal. lia.
Qed.

Lemma trunc_float_shifted (s : bool) (p m : positive) (e : Z) :
  e <= 0 -> Z.pos m = Z.pos p * 2 ^ (- e) ->
  trunc_float s m e = if s then - Z.pos p else Z.pos p.
Proof.
  intros He Hm. unfold trunc_float.
  destruct (0 <=? e) eqn:E.
  - assert (e = 0) by lia. subst e. simpl in Hm. rewrite Hm.
    destruct s; simpl; lia.
  - rewrite Hm, Z.div_mul; [reflexivity |].
    apply Z.pow_nonzero; lia.
Qed.

(** [int64(float64(x)) = x] as long as [|x| <= 2^53]. *)
Lemma int64_of_float64_of_int64 (x : int64) :
  - 2 ^ 53 <= x <= 2 ^ 53 -> int64_of_float64 (float64_of_int64 x) = x.
Proof.
  intros Hx. unfold float64_of_int64, binary_normalize.
  destruct x as [| p | p]; [reflexivity | |].
  - destruct (Z.eq_dec (Z.pos p) (2 ^ 53)) as [E | NE].
    + injection E as ->. reflexivity.
    + destruct (binary_round_small false p) as (m & e & -> & He & Hm); [lia |].
      unfold int64_of_float64.
      rewrite (trunc_float_shifted false p m e) by (lia || assumption).
      unfold in_int64, min_int64, max_int64.
      destruct ((- 2 ^ 63 <=? Z.pos p) && (Z.pos p <=? 2 ^ 63 - 1)) eqn:B;
        [reflexivity | lia].
  - destruct (Z.eq_dec (Z.pos p) (2 ^ 53)) as [E | NE].
    + injection E as ->. reflexivity.
    + destruct (binary_round_small true p) as (m & e & -> & He & Hm); [lia |].
      unfold int64_of_float64.
      rewrite (trunc_float_shifted true p m e) by (lia || assumption).
      unfold in_int64, min_int64, max_int64.
      destruct ((- 2 ^ 63 <=? - Z.pos p) && (- Z.pos p <=? 2 ^ 63 - 1)) eqn:B;
        [reflexivity | lia].
Qed.

End Float64OfInt.

(** ** The codec *)

Section Text.

Lemma parse_format_int (z : Z) : parse_int (format_int z) = Some z.
Proof.
  unfold parse_int, format_int.
  rewrite NilZero.isi.
  - simpl. f_equal. apply DecimalZ.of_to.
  - destruct z as [| p | p]; simpl; try discriminate.
    intros [= E]. exact (DecimalPos.Unsigned.to_uint_nonnil p E).
  - destruct z as [| p | p]; simpl; try discriminate.
    intros [= E]. exact (DecimalPos.Unsigned.to_uint_nonnil p E).
Qed.

Ltac split_digits d IH :=
  induction d as [| d IH | d IH | d IH | d IH | d IH
                  | d IH | d IH | d IH | d IH | d IH];
  intros rest; simpl; [reflexivity | rewrite IH; reflexivity ..].

Lemma split_on_uint_colon (d : Decimal.uint) : forall rest,
  typex.split_on ":" (NilEmpty.string_of_uint d +:+ String ":" rest)
  = Some (NilEmpty.string_of_uint d, rest).
Proof. split_digits d IH. Qed.

Lemma split_on_uint_p (d : Decimal.uint) : forall rest,
  typex.split_on "p" (NilEmpty.string_of_uint d +:+ String "p" rest)
  = Some (NilEmpty.string_of_uint d, rest).
Proof. split_digits d IH. Qed.

Lemma NilZero_uint_cases (d : Decimal.uint) :
  NilZero.string_of_uint d = NilEmpty.string_of_uint d
  \/ NilZero.string_of_uint d = NilEmpty.string_of_uint (Decimal.D0 Decimal.Nil).
Proof. destruct d; auto. Qed.

Lemma split_on_int_colon (z : Z) (rest : string) :
  typex.split_on ":" (format_int z +:+ String ":" rest)
  = Some (format_int z, rest).
Proof.
  unfold format_int.
  destruct (Z.to_int z) as [d | d]; simpl;
    destruct (NilZero_uint_cases d) as [-> | ->];
    rewrite split_on_uint_colon; reflexivity.
Qed.

Lemma split_on_int_p (z : Z) (rest : string) :
  typex.split_on "p" (format_int z +:+ String "p" rest)
  = Some (format_int z, rest).
Proof.
  unfold format_int.
  destruct (Z.to_int z) as [d | d]; simpl;
    destruct (NilZero_uint_cases d) as [-> | ->];
    rewrite split_on_uint_p; reflexivity.
Qed.

Lemma take_str_app (a b : string) :
  typex.take_str (String.length a) (a +:+ b) = a.
Proof. induction a as [| c a IH]; simpl; [destruct b | rewrite IH]; reflexivity. Qed.

Lemma drop_str_app (a b : string) :
  typex.drop_str (String.length a) (a +:+ b) = b.
Proof. induction a as [| c a IH]; simpl; [destruct b | rewrite IH]; reflexivity. Qed.

Lemma length_app_str (a b : string) :
  String.length (a +:+ b) = (String.length a + String.length b)%nat.
Proof. induction a as [| c a IH]; simpl; [| rewrite IH]; reflexivity. Qed.

Lemma app_str_assoc (a b c : string) : (a +:+ b) +:+ c = a +:+ (b +:+ c).
Proof.
  induction a as [| x a IH]; [reflexivity |].
  change (String x ((a +:+ b) +:+ c) = String x (a +:+ (b +:+ c))).
  f_equal. exact IH.
Qed.

(** Reading a field back: the frame gives its text and leaves the rest. *)
Lemma unframe_frame (s rest : string) :
  typex.unframe (typex.frame s +:+ rest) = Some (s, rest).
Proof.
  unfold typex.unframe, typex.frame.
  rewrite app_str_assoc.
  change (String ":" s +:+ rest) with (String ":" (s +:+ rest)).
  rewrite split_on_int_colon, parse_format_int.
  rewrite length_app_str, Nat2Z.id, take_str_app, drop_str_app.
  rewrite (proj2 (Z.leb_le 0 _)) by lia.
  rewrite (proj2 (Z.leb_le _ _)) by lia.
  reflexivity.
Qed.

End Text.

Section Codec.
Import typex.

Lemma app_str_nil_r (a : string) : a +:+ "" = a.
Proof.
  induction a as [| x a IH]; [reflexivity |].
  change (String x (a +:+ "") = String x a). f_equal. exact IH.
Qed.

Lemma frame_nonempty (s rest : string) :
  exists c r, frame s +:+ rest = String c r.
Proof.
  unfold frame.
  pose proof (parse_format_int (Z.of_nat (String.length s))) as Hp.
  destruct (format_int (Z.of_nat (String.length s))) as [| c r]; [discriminate |].
  eexists _, _. reflexivity.
Qed.

Lemma decode_int_format (z : int64) :
  in_int64 z = true -> decode_int (format_int z) = (z, None).
Proof. intros Hz. unfold decode_int. rewrite parse_format_int, Hz. reflexivity. Qed.

Lemma decode_float_encode (f : float64) :
  valid_binary 53 1024 f = true -> decode_float (encode_float f) = (f, None).
Proof.
  intros Hf. destruct f as [[|] | [|] | | s m e]; try reflexivity.
  unfold encode_float, decode_float.
  assert (Hfin : decode_finite s (format_int (Z.pos m) +:+ String "p" (format_int e))
                 = Some (S754_finite s m e)).
  { unfold decode_finite. rewrite split_on_int_p, !parse_format_int. reflexivity. }
  destruct s; cbv iota beta; rewrite Hfin, Hf; reflexivity.
Qed.

Lemma decode_bool_encode (b : bool) :
  decode_bool (if b then "true" else "false") = (b, None).
Proof. destruct b; reflexivity. Qed.

(** The fields of a sequence come back one by one. *)
Lemma unframe_all_frames (l : list string) : forall fuel : nat,
  (length l <= fuel)%nat ->
  unframe_all fuel (foldr (fun s acc => frame s +:+ acc) "" l) = Some l.
Proof.
  induction l as [| s l IH]; intros fuel Hfuel.
  - destruct fuel; reflexivity.
  - destruct fuel as [| fuel]; [simpl in Hfuel; lia |].
    cbn [foldr].
    destruct (frame_nonempty s (foldr (fun s acc => frame s +:+ acc) "" l))
      as (c & r & E).
    cbn [unframe_all]. rewrite E, <- E, unframe_frame.
    rewrite IH by (simpl in Hfuel; lia). reflexivity.
Qed.

Lemma frames_length (l : list string) :
  (length l <= String.length (foldr (fun s acc => frame s +:+ acc) "" l))%nat.
Proof.
  induction l as [| s l IH]; [simpl; lia |].
  cbn [foldr length].
  destruct (frame_nonempty s "") as (c & r & E).
  rewrite app_str_nil_r in E. rewrite length_app_str, E. simpl. lia.
Qed.

Lemma encode_slice_frames (a : ty) (xs : list (val a)) :
  encode (Slice a) xs
  = foldr (fun s acc => frame s +:+ acc) "" (map (encode a) xs).
Proof.
  induction xs as [| x xs IH]; [reflexivity |].
  cbn [map foldr]. rewrite <- IH. reflexivity.
Qed.

Lemma decode_each_encoded {A : Type} (enc : A -> string)
    (dec : string -> A * option error) (xs : list A) :
  Forall (fun x => dec (enc x) = (x, None)) xs ->
  decode_each dec (map enc xs) = (xs, None).
Proof.
  induction 1 as [| x xs Hx _ IH]; [reflexivity |].
  cbn [map decode_each]. rewrite Hx, IH. reflexivity.
Qed.

Lemma decode_encode (t : ty) : forall v : val t,
  wf t v -> decode t (encode t v) = (v, None).
Proof.
  induction t as [| | | | a IHa b IHb | a IHa]; intros v Hv.
  - apply decode_int_format, Hv.
  - apply decode_float_encode, Hv.
  - reflexivity.
  - apply decode_bool_encode.
  - destruct v as [x y], Hv as [Hx Hy]. cbn [encode decode fst snd] in *.
    rewrite unframe_frame.
    rewrite <- (app_str_nil_r (frame (encode b y))), unframe_frame.
    rewrite (IHa x Hx), (IHb y Hy). reflexivity.
  - cbn [decode]. rewrite encode_slice_frames.
    rewrite unframe_all_frames by apply frames_length.
    apply decode_each_encoded.
    cbn [wf] in Hv. eapply Forall_impl; [exact Hv |].
    intros x Hx. apply IHa, Hx.
Qed.

End Codec.

(** C1: for every supported type and every value [v] of it, decoding the
    text [typex.ToString] gives for [v] with [typex.ToAnyE] yields [v] and
    no error. *)
Theorem typex_round_trip (t : typex.ty) (v : typex.val t) :
  typex.wf t v ->
  @ToAnyE _ (typex.codec t) (@ToString _ (typex.codec t) v) = (v, None).
Proof. intros Hv. exact (decode_encode t v Hv). Qed.

Lemma typex_round_trip_witness :
  @ToAnyE _ (typex.codec (typex.Struct typex.Int64 (typex.Slice typex.String_)))
    (@ToString _ (typex.codec (typex.Struct typex.Int64 (typex.Slice typex.String_)))
       (-42, ["a:b"; ""; "true"]))
  = ((-42, ["a:b"; ""; "true"]), None).
Proof.
  apply (typex_round_trip (typex.Struct typex.Int64 (typex.Slice typex.String_))
           (-42, ["a:b"; ""; "true"])).
  split; [reflexivity | repeat constructor].
Defined.

(** The codec at work: the texts of an integer, a float, a composite, and
    texts that do not decode. *)
Example typex_texts :
  ToString (-42 : int64) = "-42"
  /\ ToString (float64_of_int64 3) = "+6755399441055744p-51"
  /\ typex.encode (typex.Struct typex.Int64 (typex.Slice typex.String_))
       (7, ["ab"; ""]) = "1:76:2:ab0:"
  /\ ToAnyE (T := int64) "abc" = (0, Some (ConversionError "invalid syntax"))
  /\ ToAnyE (T := int64) "9223372036854775808"
     = (0, Some (ConversionError "value out of range"))
  /\ ToAnyE (T := bool) "yes" = (false, Some (ConversionError "invalid syntax")).
Proof. vm_compute. repeat split. Qed.

(** ** Running the adapters *)

Lemma run_Vis {St A X : Type} (c : Client St) (e : redisE X) (k : X -> Prog A) (s : St) :
  run c (Vis e k) s
  = {| outcome := outcome (run c (k (reply c e s)) (next c e s));
       final := final (run c (k (reply c e s)) (next c e s));
       sent := Req e :: sent (run c (k (reply c e s)) (next c e s)) |}.
Proof. unfold reply, next. simpl. destruct (c X e s) as [x s']. reflexivity. Qed.

Lemma runs_command_intro {St A X : Type} (c : Client St) (s : St) (e : redisE X)
    (k : X -> Prog A) (result : X -> A) :
  (forall x, k x = Ret (result x)) -> runs_command c s (Vis e k) e result.
Proof. intros Hk. unfold runs_command. rewrite run_Vis, Hk. reflexivity. Qed.

Lemma runs_batch_intro {St A : Type} (c : Client St) (s : St) (cmds : list PipeCmd)
    (k : list PipeResult * option error -> Prog A)
    (result : list PipeResult * option error -> A) :
  (forall x, k x = Ret (result x)) -> runs_batch c s (Vis (Pipeline_Exec cmds) k) cmds result.
Proof. intros Hk. unfold runs_batch. rewrite run_Vis, Hk. reflexivity. Qed.

Lemma queue_Expire_pos (key : string) (expire : Duration) :
  0 < expire -> queue_Expire key expire = [P_Expire key expire].
Proof. intros H. unfold queue_Expire. destruct (0 <? expire) eqn:E; [reflexivity | lia]. Qed.

Lemma queue_Expire_nonpos (key : string) (expire : Duration) :
  expire <= 0 -> queue_Expire key expire = [].
Proof. intros H. unfold queue_Expire. destruct (0 <? expire) eqn:E; [lia | reflexivity]. Qed.

(** Shapes of the results of the write calls. *)
Ltac solve_batch :=
  apply runs_batch_intro; intros [rs [e |]]; reflexivity.

Section Writes.
Context {St : Type} (c : Client St) (s : St).
Context {K V T : Type} `{Countable K} {TK : Typex K} {TV : Typex V} {TT : Typex T}.
Context (h : hash_map.HashMap) (q : z_queue.ZQueue).

Lemma Set_runs (field : K) (value : V) (expire : Duration) :
  runs_batch c s (call (hash_map.Set_ field value expire) h)
    (P_HSet (hash_map.Key h) [(ToString field, ToString value)]
       :: queue_Expire (hash_map.Key h) expire)
    (fun r => (r.2, h)).
Proof. solve_batch. Qed.

Lemma SetMulti_runs (fields : gmap K V) (expire : Duration) :
  fields ≠ ∅ ->
  runs_batch c s (call (hash_map.SetMulti fields expire) h)
    (P_HSet (hash_map.Key h) (map_to_list (hash_map.encode_fields fields))
       :: queue_Expire (hash_map.Key h) expire)
    (fun r => (r.2, h)).
Proof.
  intros Hne. unfold hash_map.SetMulti.
  destruct (size fields =? 0)%nat eqn:E.
  - apply Nat.eqb_eq, map_size_empty_iff in E. contradiction.
  - solve_batch.
Qed.

Lemma SetMulti_empty_runs (expire : Duration) :
  run c (call (hash_map.SetMulti (∅ : gmap K V) expire) h) s
  = {| outcome := Returned (None, h); final := s; sent := [] |}.
Proof. unfold hash_map.SetMulti. rewrite map_size_empty. reflexivity. Qed.

Lemma Incr_runs (field : K) (increment : int64) (expire : Duration) :
  runs_batch c s (call (hash_map.Incr field increment expire) h)
    (P_HIncrBy (hash_map.Key h) (ToString field) increment
       :: queue_Expire (hash_map.Key h) expire)
    (fun r => (match r.2 with
               | Some e => (0, Some e)
               | None => (IntCmd_Val r.1 0, None)
               end, h)).
Proof. solve_batch. Qed.

Lemma IncrFloat_runs (field : K) (increment : float64) (expire : Duration) :
  runs_batch c s (call (hash_map.IncrFloat field increment expire) h)
    (P_HIncrByFloat (hash_map.Key h) (ToString field) increment
       :: queue_Expire (hash_map.Key h) expire)
    (fun r => (match r.2 with
               | Some e => (S754_zero false, Some e)
               | None => (FloatCmd_Val r.1 0, None)
               end, h)).
Proof. solve_batch. Qed.

Lemma Add_runs (member : T) (score : int64) (expire : Duration) :
  runs_batch c s (call (z_queue.Add member score expire) q)
    (P_ZAdd (z_queue.Key q)
       [ {| Z_Score := float64_of_int64 score; Z_Member := ToString member |} ]
       :: queue_Expire (z_queue.Key q) expire)
    (fun r => (r.2, q)).
Proof. solve_batch. Qed.

Lemma AddMulti_runs (elements : list (z_queue.Element T)) (expire : Duration) :
  runs_batch c s (call (z_queue.AddMulti elements expire) q)
    (P_ZAdd (z_queue.Key q)
       (map (fun elem => {| Z_Score := float64_of_int64 (z_queue.Score elem);
                            Z_Member := ToString (z_queue.Member elem) |}) elements)
       :: queue_Expire (z_queue.Key q) expire)
    (fun r => (r.2, q)).
Proof. solve_batch. Qed.

Lemma RemoveMulti_runs (members : list T) :
  runs_command c s (call (z_queue.RemoveMulti members) q)
    (ZRem (z_queue.Key q) (map ToString members)) (fun err => (err, q)).
Proof. apply runs_command_intro. reflexivity. Qed.

End Writes.

(** ** Writes and their expiry refresh *)

Lemma store_Exec_first_error (cmds : list PipeCmd) (st : store.Store) :
  (reply store.client (Pipeline_Exec cmds) st).2
  = store.first_error (reply store.client (Pipeline_Exec cmds) st).1.
Proof.
  unfold reply. cbn [store.client].
  destruct (store.exec_cmds cmds st) as [rs st']. reflexivity.
Qed.

(** C2, as stated, at [SetMulti] with no fields and a positive [expire]:
    nothing is sent, neither a field write nor an expiry refresh. *)
Lemma SetMulti_empty_sends_nothing :
  sent (run store.client
          (call (hash_map.SetMulti (∅ : gmap string string) 5)
                (hash_map.NewHashMap "h"))
          store.empty) = []
  /\ (0 <? 5) = true.
Proof. split; reflexivity. Qed.

(** C2 (amended): [Set], [Incr], [IncrFloat], [Add], [AddMulti], and
    [SetMulti] with at least one field, each run as one pipeline: it holds
    the value write, followed by [Expire] on the container key exactly when
    [expire > 0], and the call returns the error [Exec] reports ([Incr] and
    [IncrFloat] beside the value read off the first command).  [SetMulti]
    with no field sends nothing and returns nil, whatever [expire] is.
    On the reference store the error [Exec] reports is that of the first
    command that failed. *)
Theorem write_calls_batch {St : Type} (c : Client St) (s : St)
    {K V T : Type} `{Countable K} {TK : Typex K} {TV : Typex V} {TT : Typex T}
    (h : hash_map.HashMap) (q : z_queue.ZQueue) (expire : Duration) :
  (forall (field : K) (value : V),
      runs_batch c s (call (hash_map.Set_ field value expire) h)
        (P_HSet (hash_map.Key h) [(ToString field, ToString value)]
           :: queue_Expire (hash_map.Key h) expire)
        (fun r => (r.2, h)))
  /\ (forall fields : gmap K V, fields ≠ ∅ ->
      runs_batch c s (call (hash_map.SetMulti fields expire) h)
        (P_HSet (hash_map.Key h) (map_to_list (hash_map.encode_fields fields))
           :: queue_Expire (hash_map.Key h) expire)
        (fun r => (r.2, h)))
  /\ run c (call (hash_map.SetMulti (∅ : gmap K V) expire) h) s
     = {| outcome := Returned (None, h); final := s; sent := [] |}
  /\ (forall (field : K) (increment : int64),
      runs_batch c s (call (hash_map.Incr field increment expire) h)
        (P_HIncrBy (hash_map.Key h) (ToString field) increment
           :: queue_Expire (hash_map.Key h) expire)
        (fun r => (match r.2 with
                   | Some e => (0, Some e)
                   | None => (IntCmd_Val r.1 0, None)
                   end, h)))
  /\ (forall (field : K) (increment : float64),
      runs_batch c s (call (hash_map.IncrFloat field increment expire) h)
        (P_HIncrByFloat (hash_map.Key h) (ToString field) increment
           :: queue_Expire (hash_map.Key h) expire)
        (fun r => (match r.2 with
                   | Some e => (S754_zero false, Some e)
                   | None => (FloatCmd_Val r.1 0, None)
                   end, h)))
  /\ (forall (member : T) (score : int64),
      runs_batch c s (call (z_queue.Add member score expire) q)
        (P_ZAdd (z_queue.Key q)
           [ {| Z_Score := float64_of_int64 score; Z_Member := ToString member |} ]
           :: queue_Expire (z_queue.Key q) expire)
        (fun r => (r.2, q)))
  /\ (forall elements : list (z_queue.Element T),
      runs_batch c s (call (z_queue.AddMulti elements expire) q)
        (P_ZAdd (z_queue.Key q)
           (map (fun elem => {| Z_Score := float64_of_int64 (z_queue.Score elem);
                                Z_Member := ToString (z_queue.Member elem) |})
                elements)
           :: queue_Expire (z_queue.Key q) expire)
        (fun r => (r.2, q)))
  /\ (forall key : string,
      (0 < expire -> queue_Expire key expire = [P_Expire key expire])
      /\ (expire <= 0 -> queue_Expire key expire = []))
  /\ (forall (cmds : list PipeCmd) (st : store.Store),
      (reply store.client (Pipeline_Exec cmds) st).2
      = store.first_error (reply store.client (Pipeline_Exec cmds) st).1).
Proof.
  split; [intros; apply Set_runs |].
  split; [intros; apply SetMulti_runs; assumption |].
  split; [apply SetMulti_empty_runs |].
  split; [intros; apply Incr_runs |].
  split; [intros; apply IncrFloat_runs |].
  split; [intros; apply Add_runs |].
  split; [intros; apply AddMulti_runs |].
  split; [| apply store_Exec_first_error].
  intros key. split; [apply queue_Expire_pos | apply queue_Expire_nonpos].
Qed.

Lemma write_calls_batch_witness :
  runs_batch store.client store.empty
    (call (hash_map.SetMulti ({["a" := "1"]} : gmap string string) 5)
          (hash_map.NewHashMap "h"))
    [P_HSet "h" [("a", "1")]; P_Expire "h" 5]
    (fun r => (r.2, hash_map.NewHashMap "h")).
Proof.
  destruct (write_calls_batch store.client store.empty (K := string) (V := string)
              (T := string) (hash_map.NewHashMap "h")
              {| z_queue.Key := "q"; z_queue.Desc := false |} 5)
    as (_ & HSetMulti & _ & _ & _ & _ & _ & HExpire & _).
  destruct (HExpire "h") as [Hpos _].
  specialize (HSetMulti {["a" := "1"]}).
  cbn [hash_map.Key hash_map.NewHashMap] in HSetMulti.
  rewrite Hpos in HSetMulti by lia.
  apply HSetMulti. intros E.
  apply (f_equal (fun m : gmap string string => m !! "a")) in E.
  rewrite lookup_singleton_eq, lookup_empty in E. discriminate.
Defined.

(** The pipeline is go-redis's plain one: on the reference store a batch
    whose write fails still has its expiry refresh applied. *)
Remark batch_applied_in_part :
  let s0 := final (run store.client
                     (call (z_queue.Add "m" 1 0) {| z_queue.Key := "k"; z_queue.Desc := false |})
                     store.empty) in
  let r := run store.client
             (call (hash_map.Set_ "f" "v" 5) (hash_map.NewHashMap "k")) s0 in
  outcome r = Returned (Some store.WRONGTYPE, hash_map.NewHashMap "k")
  /\ store.expiry s0 !! "k" = None
  /\ store.expiry (final r) !! "k" = Some 5.
Proof. vm_compute. repeat split. Qed.

(** ** Empty inputs *)

(** C5: what the three bulk calls do on an empty input.  [SetMulti] returns
    nil without sending anything; [AddMulti] and [RemoveMulti] have no such
    guard: they send ZADD and ZREM with no member and return what comes
    back, which on the reference store is the arity error. *)
Theorem empty_multi_calls {St : Type} (c : Client St) (s : St)
    {K V T : Type} `{Countable K} {TK : Typex K} {TV : Typex V} {TT : Typex T}
    (h : hash_map.HashMap) (q : z_queue.ZQueue) (expire : Duration) :
  run c (call (hash_map.SetMulti (∅ : gmap K V) expire) h) s
  = {| outcome := Returned (None, h); final := s; sent := [] |}
  /\ runs_batch c s (call (z_queue.AddMulti ([] : list (z_queue.Element T)) expire) q)
       (P_ZAdd (z_queue.Key q) [] :: queue_Expire (z_queue.Key q) expire)
       (fun r => (r.2, q))
  /\ runs_command c s (call (z_queue.RemoveMulti ([] : list T)) q)
       (ZRem (z_queue.Key q) []) (fun err => (err, q))
  /\ (forall st : store.Store,
      (reply store.client
         (Pipeline_Exec (P_ZAdd (z_queue.Key q) [] :: queue_Expire (z_queue.Key q) expire))
         st).2 = Some store.ERR_arity
      /\ reply store.client (ZRem (z_queue.Key q) []) st = Some store.ERR_arity).
Proof.
  split; [apply SetMulti_empty_runs |].
  split; [exact (AddMulti_runs c s q [] expire) |].
  split; [exact (RemoveMulti_runs c s q []) |].
  intros st. split; [| reflexivity].
  rewrite store_Exec_first_error. unfold reply. cbn [store.client store.exec_cmds store.exec_cmd].
  destruct (store.exec_cmds (queue_Expire (z_queue.Key q) expire) st) as [rs st'].
  reflexivity.
Qed.

(** ** Range queries *)

Section Ranges.
Context {St : Type} (c : Client St) (s : St).
Context {T : Type} {TT : Typex T} {TI : Typex int64}.
Context (q : z_queue.ZQueue).

Lemma rangeByScoreInternal_runs (minScore maxScore offset count : int64) (desc : bool) :
  runs_command c s
    (call (z_queue.rangeByScoreInternal (T := T) minScore maxScore offset count desc) q)
    (range_command desc (z_queue.Key q) (range_opt minScore maxScore offset count))
    (range_result q).
Proof.
  unfold z_queue.rangeByScoreInternal, range_command, range_opt.
  destruct desc; apply runs_command_intro; intros [zs [e |]]; reflexivity.
Qed.

Lemma range_receiver (minScore maxScore offset count : int64) (desc : bool) :
  receiver_after
    (run c (call (z_queue.rangeByScoreInternal (T := T) minScore maxScore offset count desc) q) s)
  = Some q.
Proof.
  pose proof (rangeByScoreInternal_runs minScore maxScore offset count desc) as Hr.
  unfold runs_command in Hr. unfold receiver_after. rewrite Hr. reflexivity.
Qed.

End Ranges.

Lemma LIMIT_all {A : Type} (o : nat) (l : list A) :
  store.LIMIT (Z.of_nat o) (-1) l = drop o l.
Proof.
  unfold store.LIMIT.
  destruct (Z.of_nat o <? 0) eqn:E; [apply Z.ltb_lt in E; lia |].
  rewrite Nat2Z.id. reflexivity.
Qed.

Lemma paginate_all {A : Type} (minS maxS : string) (o : nat) (l : list A) :
  store.paginate {| Min := minS; Max := maxS; Offset := Z.of_nat o; Count := -1 |} l
  = drop o l.
Proof.
  unfold store.paginate. cbn [Offset Count].
  rewrite andb_false_r. apply LIMIT_all.
Qed.

(** C3: the one operation every range call goes through sends ["-inf"] as
    the lower bound when [minScore] is the sentinel -1 and ["+inf"] as the
    upper bound when [maxScore] is, in either direction; [offset] and
    [count] go to the store as they are, and there a [count] of -1 puts no
    limit on the page: it is everything in the window from the offset on. *)
Theorem range_sentinels_and_limit {St : Type} (c : Client St) (s : St)
    {T : Type} {TT : Typex T} {TI : Typex int64} (q : z_queue.ZQueue)
    (offset count : int64) (desc : bool) :
  (forall minScore maxScore : int64,
      runs_command c s
        (call (z_queue.rangeByScoreInternal minScore maxScore offset count desc) q)
        (range_command desc (z_queue.Key q) (range_opt minScore maxScore offset count))
        (range_result (T := T) q))
  /\ (forall maxScore : int64,
      Min (range_opt (-1) maxScore offset count) = "-inf")
  /\ (forall minScore : int64,
      Max (range_opt minScore (-1) offset count) = "+inf")
  /\ (forall minScore maxScore : int64,
      Offset (range_opt minScore maxScore offset count) = offset
      /\ Count (range_opt minScore maxScore offset count) = count)
  /\ (forall (st : store.Store) (key : string) (opt : ZRangeBy),
      reply store.client (range_command desc key opt) st
      = store.range_by_score st key opt desc)
  /\ (forall (minS maxS : string) (o : nat) (hits : list redis_Z),
      store.paginate {| Min := minS; Max := maxS; Offset := Z.of_nat o; Count := -1 |} hits
      = drop o hits).
Proof.
  split; [intros; apply rangeByScoreInternal_runs |].
  split; [reflexivity |].
  split; [reflexivity |].
  split; [intros; split; reflexivity |].
  split; [intros; destruct desc; reflexivity |].
  intros. apply paginate_all.
Qed.

(** C4: the four base range calls ask for the direction stored in [Desc],
    the four [Rev] calls for its negation, and the receiver that comes back
    from any of them is the one that went in, [Desc] and [Key] included. *)
Theorem range_direction_and_frame {St : Type} (c : Client St) (s : St)
    {T : Type} {TT : Typex T} {TI : Typex int64} (q : z_queue.ZQueue)
    (minScore maxScore offset count : int64) :
  let d := z_queue.Desc q in
  let key := z_queue.Key q in
  (runs_command c s (call (z_queue.RangeByScore (T := T) minScore maxScore) q)
     (range_command d key (range_opt minScore maxScore 0 (-1))) (range_result q)
   /\ runs_command c s
        (call (z_queue.RangeByScoreWithLimit (T := T) minScore maxScore offset count) q)
        (range_command d key (range_opt minScore maxScore offset count)) (range_result q)
   /\ runs_command c s (call (z_queue.RangeFromScore (T := T) minScore) q)
        (range_command d key (range_opt minScore (-1) 0 (-1))) (range_result q)
   /\ runs_command c s (call (z_queue.RangeToScore (T := T) maxScore) q)
        (range_command d key (range_opt (-1) maxScore 0 (-1))) (range_result q))
  /\ (runs_command c s (call (z_queue.RangeByScoreRev (T := T) minScore maxScore) q)
        (range_command (negb d) key (range_opt minScore maxScore 0 (-1))) (range_result q)
      /\ runs_command c s
           (call (z_queue.RangeByScoreWithLimitRev (T := T) minScore maxScore offset count) q)
           (range_command (negb d) key (range_opt minScore maxScore offset count))
           (range_result q)
      /\ runs_command c s (call (z_queue.RangeFromScoreRev (T := T) minScore) q)
           (range_command (negb d) key (range_opt minScore (-1) 0 (-1))) (range_result q)
      /\ runs_command c s (call (z_queue.RangeToScoreRev (T := T) maxScore) q)
           (range_command (negb d) key (range_opt (-1) maxScore 0 (-1))) (range_result q))
  /\ (receiver_after (run c (call (z_queue.RangeByScore (T := T) minScore maxScore) q) s) = Some q
      /\ receiver_after
           (run c (call (z_queue.RangeByScoreWithLimit (T := T) minScore maxScore offset count) q) s)
         = Some q
      /\ receiver_after (run c (call (z_queue.RangeFromScore (T := T) minScore) q) s) = Some q
      /\ receiver_after (run c (call (z_queue.RangeToScore (T := T) maxScore) q) s) = Some q
      /\ receiver_after (run c (call (z_queue.RangeByScoreRev (T := T) minScore maxScore) q) s)
         = Some q
      /\ receiver_after
           (run c (call (z_queue.RangeByScoreWithLimitRev (T := T) minScore maxScore offset count) q) s)
         = Some q
      /\ receiver_after (run c (call (z_queue.RangeFromScoreRev (T := T) minScore) q) s) = Some q
      /\ receiver_after (run c (call (z_queue.RangeToScoreRev (T := T) maxScore) q) s) = Some q).
Proof.
  cbv zeta.
  pose proof (rangeByScoreInternal_runs c s (T := T) q) as Hrun.
  pose proof (range_receiver c s (T := T) q) as Hrecv.
  split; [| split].
  - split; [exact (Hrun minScore maxScore 0 (-1) (z_queue.Desc q)) |].
    split; [exact (Hrun minScore maxScore offset count (z_queue.Desc q)) |].
    split; [exact (Hrun minScore (-1) 0 (-1) (z_queue.Desc q)) |].
    exact (Hrun (-1) maxScore 0 (-1) (z_queue.Desc q)).
  - split; [exact (Hrun minScore maxScore 0 (-1) (negb (z_queue.Desc q))) |].
    split; [exact (Hrun minScore maxScore offset count (negb (z_queue.Desc q))) |].
    split; [exact (Hrun minScore (-1) 0 (-1) (negb (z_queue.Desc q))) |].
    exact (Hrun (-1) maxScore 0 (-1) (negb (z_queue.Desc q))).
  - split; [exact (Hrecv minScore maxScore 0 (-1) (z_queue.Desc q)) |].
    split; [exact (Hrecv minScore maxScore offset count (z_queue.Desc q)) |].
    split; [exact (Hrecv minScore (-1) 0 (-1) (z_queue.Desc q)) |].
    split; [exact (Hrecv (-1) maxScore 0 (-1) (z_queue.Desc q)) |].
    split; [exact (Hrecv minScore maxScore 0 (-1) (negb (z_queue.Desc q))) |].
    split; [exact (Hrecv minScore maxScore offset count (negb (z_queue.Desc q))) |].
    split; [exact (Hrecv minScore (-1) 0 (-1) (negb (z_queue.Desc q))) |].
    exact (Hrecv (-1) maxScore 0 (-1) (negb (z_queue.Desc q))).
Qed.

Lemma format_int_inj (a b : Z) : format_int a = format_int b -> a = b.
Proof.
  intros E. apply (f_equal parse_int) in E.
  rewrite !parse_format_int in E. congruence.
Qed.

Lemma range_opt_bounds {TI : Typex int64} (minScore maxScore offset count : int64) :
  (Min (range_opt minScore maxScore offset count) = "-inf"
   \/ minScore <> -1 /\ Min (range_opt minScore maxScore offset count) = ToString minScore)
  /\ (Max (range_opt minScore maxScore offset count) = "+inf"
      \/ maxScore <> -1 /\ Max (range_opt minScore maxScore offset count) = ToString maxScore).
Proof.
  unfold range_opt. cbn [Min Max]. split.
  - destruct (minScore =? -1) eqn:E; [left; reflexivity | right].
    apply Z.eqb_neq in E. split; [exact E | reflexivity].
  - destruct (maxScore =? -1) eqn:E; [left; reflexivity | right].
    apply Z.eqb_neq in E. split; [exact E | reflexivity].
Qed.

(** C10: a [minScore] of exactly -1 goes to the store as ["-inf"] and a
    [maxScore] of exactly -1 as ["+inf"], in every range call; so the bound
    a call sends is one of those or the text of a score other than -1, and
    with the decimal codec it is never ["-1"].  [RangeByScore(-1, 10)] asks
    for the window from ["-inf"] to ["10"]. *)
Theorem minus_one_is_no_bound {St : Type} (c : Client St) (s : St)
    {T : Type} {TT : Typex T} {TI : Typex int64} (q : z_queue.ZQueue) :
  (forall (minScore maxScore offset count : int64) (desc : bool),
      runs_command c s
        (call (z_queue.rangeByScoreInternal (T := T) minScore maxScore offset count desc) q)
        (range_command desc (z_queue.Key q) (range_opt minScore maxScore offset count))
        (range_result q))
  /\ (forall maxScore offset count : int64,
      Min (range_opt (-1) maxScore offset count) = "-inf")
  /\ (forall minScore offset count : int64,
      Max (range_opt minScore (-1) offset count) = "+inf")
  /\ (forall minScore maxScore offset count : int64,
      (Min (range_opt minScore maxScore offset count) = "-inf"
       \/ minScore <> -1
          /\ Min (range_opt minScore maxScore offset count) = ToString minScore)
      /\ (Max (range_opt minScore maxScore offset count) = "+inf"
          \/ maxScore <> -1
             /\ Max (range_opt minScore maxScore offset count) = ToString maxScore))
  /\ (forall minScore maxScore offset count : int64,
      Min (range_opt (TI := typex.Typex_int64) minScore maxScore offset count) <> "-1"
      /\ Max (range_opt (TI := typex.Typex_int64) minScore maxScore offset count) <> "-1")
  /\ runs_command c s
       (call (z_queue.RangeByScore (T := T) (TI := typex.Typex_int64) (-1) 10) q)
       (range_command (z_queue.Desc q) (z_queue.Key q)
          {| Min := "-inf"; Max := "10"; Offset := 0; Count := -1 |})
       (range_result q).
Proof.
  split; [intros; apply rangeByScoreInternal_runs |].
  split; [reflexivity |].
  split; [reflexivity |].
  split; [intros; apply range_opt_bounds |].
  split.
  - intros minScore maxScore offset count.
    destruct (range_opt_bounds (TI := typex.Typex_int64) minScore maxScore offset count)
      as [[-> | [Hm ->]] [-> | [HM ->]]]; split; try discriminate;
      intros E; apply (format_int_inj _ (-1)) in E; contradiction.
  - exact (rangeByScoreInternal_runs c s (TI := typex.Typex_int64) q (-1) 10 0 (-1)
             (z_queue.Desc q)).
Qed.

(** On the reference store: scores 1, 2, 3 in both directions, a page
    without limit, and a lower bound of -1 that reaches below -1. *)
Example ranges_on_store :
  let q := {| z_queue.Key := "q"; z_queue.Desc := false |} in
  let qd := {| z_queue.Key := "q"; z_queue.Desc := true |} in
  let E := fun (m : string) (sc : int64) => {| z_queue.Member := m; z_queue.Score := sc |} in
  let s1 := final (run store.client
                     (call (z_queue.AddMulti [E "c" 3; E "a" 1; E "b" 2; E "z" (-5)] 0) q)
                     store.empty) in
  let result := fun (m : Method z_queue.ZQueue (list (z_queue.Element string) * option error))
                    (r : z_queue.ZQueue) =>
                  outcome (run store.client (call m r) s1) in
  result (z_queue.RangeByScore 1 3) q = Returned (([E "a" 1; E "b" 2; E "c" 3], None), q)
  /\ result (z_queue.RangeByScore 1 3) qd = Returned (([E "c" 3; E "b" 2; E "a" 1], None), qd)
  /\ result (z_queue.RangeByScoreRev 1 3) q = Returned (([E "c" 3; E "b" 2; E "a" 1], None), q)
  /\ result (z_queue.RangeByScoreWithLimit 1 3 1 (-1)) q
     = Returned (([E "b" 2; E "c" 3], None), q)
  /\ result (z_queue.RangeByScoreWithLimit 1 3 1 1) q = Returned (([E "b" 2], None), q)
  /\ result (z_queue.RangeByScore (-1) 2) q
     = Returned (([E "z" (-5); E "a" 1; E "b" 2], None), q)
  /\ result (z_queue.RangeByScore (-5) (-1)) q
     = Returned (([E "z" (-5); E "a" 1; E "b" 2; E "c" 3], None), q).
Proof. vm_compute. repeat split. Qed.

(** ** Absence *)

Section Absence.
Context {St : Type} (c : Client St) (s : St).
Context {K V T : Type} {TK : Typex K} {TV : Typex V} {TT : Typex T}.
Context (h : hash_map.HashMap) (q : z_queue.ZQueue).

Lemma Get_runs (field : K) :
  runs_command c s (call (hash_map.Get (V := V) field) h)
    (HGet (hash_map.Key h) (ToString field))
    (fun r => (match r.2 with
               | Some e => if is_redis_Nil e then (zero, None) else (zero, Some e)
               | None => ToAnyE r.1
               end, h)).
Proof.
  apply runs_command_intro. intros [val [e |]]; [destruct e |]; reflexivity.
Qed.

Lemma Score_runs (member : T) :
  runs_command c s (call (z_queue.Score_ member) q)
    (ZScore (z_queue.Key q) (ToString member))
    (fun r => (match r.2 with
               | Some e => (0, Some e)
               | None => (int64_of_float64 r.1, None)
               end, q)).
Proof. apply runs_command_intro. intros [val [e |]]; reflexivity. Qed.

End Absence.

Lemma store_HGet_absent (st : store.Store) (key field : string) (hmap : gmap string string) :
  store.get_hash st key = inl hmap -> hmap !! field = None ->
  reply store.client (HGet key field) st = ("", Some redis_Nil).
Proof. intros Hh Hf. unfold reply. cbn [store.client]. rewrite Hh, Hf. reflexivity. Qed.

Lemma store_ZScore_absent (st : store.Store) (key member : string) (zs : list redis_Z) :
  store.get_zset st key = inl zs -> store.z_find member zs = None ->
  reply store.client (ZScore key member) st = (S754_zero false, Some redis_Nil).
Proof. intros Hz Hm. unfold reply. cbn [store.client]. rewrite Hz, Hm. reflexivity. Qed.

(** C7: [Get] of a field the hash does not hold returns the zero value of
    [V] and a nil error; [Score] of a member the sorted set does not hold
    returns 0 and the error the client reports, [redis.Nil].  For any
    client: [Get] turns a [redis.Nil] answer into (zero, nil), [Score]
    passes any error on. *)
Theorem absent_Get_vs_Score {K V T : Type} {TK : Typex K} {TV : Typex V} {TT : Typex T}
    (st : store.Store) (h : hash_map.HashMap) (q : z_queue.ZQueue)
    (field : K) (member : T) (hmap : gmap string string) (zs : list redis_Z) :
  store.get_hash st (hash_map.Key h) = inl hmap ->
  hmap !! ToString field = None ->
  store.get_zset st (z_queue.Key q) = inl zs ->
  store.z_find (ToString member) zs = None ->
  outcome (run store.client (call (hash_map.Get (V := V) field) h) st)
  = Returned ((zero, None), h)
  /\ outcome (run store.client (call (z_queue.Score_ member) q) st)
     = Returned ((0, Some redis_Nil), q)
  /\ (forall (St : Type) (c : Client St) (s : St) (val : string),
      reply c (HGet (hash_map.Key h) (ToString field)) s = (val, Some redis_Nil) ->
      outcome (run c (call (hash_map.Get (V := V) field) h) s)
      = Returned ((zero, None), h))
  /\ (forall (St : Type) (c : Client St) (s : St) (f : float64) (e : error),
      reply c (ZScore (z_queue.Key q) (ToString member)) s = (f, Some e) ->
      outcome (run c (call (z_queue.Score_ member) q) s)
      = Returned ((0, Some e), q)).
Proof.
  intros Hh Hf Hz Hm.
  split; [| split; [| split]].
  - rewrite (Get_runs store.client st h field).
    rewrite (store_HGet_absent st _ _ hmap Hh Hf). reflexivity.
  - rewrite (Score_runs store.client st q member).
    rewrite (store_ZScore_absent st _ _ zs Hz Hm). reflexivity.
  - intros St c s val Hr. rewrite (Get_runs c s h field), Hr. reflexivity.
  - intros St c s f e Hr. rewrite (Score_runs c s q member), Hr. reflexivity.
Qed.

Lemma absent_Get_vs_Score_witness :
  outcome (run store.client
             (call (hash_map.Get (K := string) (V := int64) "f") (hash_map.NewHashMap "h"))
             store.empty)
  = Returned ((0, None), hash_map.NewHashMap "h")
  /\ outcome (run store.client
                (call (z_queue.Score_ "m") {| z_queue.Key := "q"; z_queue.Desc := false |})
                store.empty)
     = Returned ((0, Some redis_Nil), {| z_queue.Key := "q"; z_queue.Desc := false |}).
Proof.
  destruct (absent_Get_vs_Score (K := string) (V := int64) (T := string)
              store.empty (hash_map.NewHashMap "h")
              {| z_queue.Key := "q"; z_queue.Desc := false |} "f" "m" ∅ [])
    as (HGet & HScore & _); try reflexivity.
  split; [exact HGet | exact HScore].
Defined.

(** ** Pops *)

Section Pops.
Context {St : Type} (c : Client St) (s : St).
Context {T : Type} {TT : Typex T}.
Context (q : z_queue.ZQueue).

Lemma PopMin_runs :
  runs_command c s (call (z_queue.PopMin (T := T)) q)
    (ZPopMin (z_queue.Key q) 1) (pop_one_result q).
Proof. apply runs_command_intro. intros [[| z zs] [e |]]; reflexivity. Qed.

Lemma PopMax_runs :
  runs_command c s (call (z_queue.PopMax (T := T)) q)
    (ZPopMax (z_queue.Key q) 1) (pop_one_result q).
Proof. apply runs_command_intro. intros [[| z zs] [e |]]; reflexivity. Qed.

Lemma PopMinMulti_runs (count : int64) :
  runs_command c s (call (z_queue.PopMinMulti (T := T) count) q)
    (ZPopMin (z_queue.Key q) count) (range_result q).
Proof. apply runs_command_intro. intros [zs [e |]]; reflexivity. Qed.

Lemma PopMaxMulti_runs (count : int64) :
  runs_command c s (call (z_queue.PopMaxMulti (T := T) count) q)
    (ZPopMax (z_queue.Key q) count) (range_result q).
Proof. apply runs_command_intro. intros [zs [e |]]; reflexivity. Qed.

End Pops.

Lemma store_pop_all (st : store.Store) (key : string) (zs : list redis_Z)
    (count : int64) (max : bool) :
  store.get_zset st key = inl zs -> Z.of_nat (length zs) <= count ->
  store.pop st key count max
  = ((if max then reverse zs else zs, None), store.remove_key st key).
Proof.
  intros Hz Hc. unfold store.pop. rewrite Hz.
  destruct (count <? 0) eqn:E; [apply Z.ltb_lt in E; lia |].
  assert (Hn : (length zs <= Z.to_nat count)%nat) by lia.
  destruct max.
  - rewrite take_ge by (rewrite length_reverse; exact Hn).
    replace (length zs - Z.to_nat count)%nat with 0%nat by lia.
    reflexivity.
  - rewrite take_ge by exact Hn. rewrite drop_ge by exact Hn. reflexivity.
Qed.

(** C8: on a container with no element [PopMin] and [PopMax] return a nil
    element and a nil error; [PopMinMulti] and [PopMaxMulti] with a count
    of at least the container's size return the elements it holds, lowest
    first respectively highest first, and no more.  For any client, an
    empty answer without error makes [PopMin] and [PopMax] return
    (nil, nil). *)
Theorem pops_on_empty_and_short {T : Type} {TT : Typex T}
    (st : store.Store) (q : z_queue.ZQueue) (zs : list redis_Z) (count : int64) :
  store.get_zset st (z_queue.Key q) = inl zs ->
  Z.of_nat (length zs) <= count ->
  (zs = [] ->
   outcome (run store.client (call (z_queue.PopMin (T := T)) q) st)
   = Returned ((None, None), q)
   /\ outcome (run store.client (call (z_queue.PopMax (T := T)) q) st)
      = Returned ((None, None), q))
  /\ outcome (run store.client (call (z_queue.PopMinMulti (T := T) count) q) st)
     = Returned ((z_queue.redisZToElements zs, None), q)
  /\ outcome (run store.client (call (z_queue.PopMaxMulti (T := T) count) q) st)
     = Returned ((z_queue.redisZToElements (reverse zs), None), q)
  /\ (forall (St : Type) (c : Client St) (s : St),
      (reply c (ZPopMin (z_queue.Key q) 1) s = ([], None) ->
       outcome (run c (call (z_queue.PopMin (T := T)) q) s) = Returned ((None, None), q))
      /\ (reply c (ZPopMax (z_queue.Key q) 1) s = ([], None) ->
          outcome (run c (call (z_queue.PopMax (T := T)) q) s) = Returned ((None, None), q))).
Proof.
  intros Hz Hc.
  split; [| split; [| split]].
  - intros ->. split.
    + rewrite (PopMin_runs store.client st q). unfold reply. cbn [store.client].
      rewrite (store_pop_all st _ [] 1 false Hz) by (simpl; lia). reflexivity.
    + rewrite (PopMax_runs store.client st q). unfold reply. cbn [store.client].
      rewrite (store_pop_all st _ [] 1 true Hz) by (simpl; lia). reflexivity.
  - rewrite (PopMinMulti_runs store.client st q count). unfold reply. cbn [store.client].
    rewrite (store_pop_all st _ zs count false Hz Hc). reflexivity.
  - rewrite (PopMaxMulti_runs store.client st q count). unfold reply. cbn [store.client].
    rewrite (store_pop_all st _ zs count true Hz Hc). reflexivity.
  - intros St c s. split; intros Hr.
    + rewrite (PopMin_runs c s q), Hr. reflexivity.
    + rewrite (PopMax_runs c s q), Hr. reflexivity.
Qed.

Lemma pops_on_empty_and_short_witness :
  let q := {| z_queue.Key := "q"; z_queue.Desc := false |} in
  let E := fun (m : string) (sc : int64) => {| z_queue.Member := m; z_queue.Score := sc |} in
  let s1 := final (run store.client (call (z_queue.AddMulti [E "b" 2; E "a" 1] 0) q)
                     store.empty) in
  (outcome (run store.client (call (z_queue.PopMin (T := string)) q) store.empty)
   = Returned ((None, None), q)
   /\ outcome (run store.client (call (z_queue.PopMax (T := string)) q) store.empty)
      = Returned ((None, None), q))
  /\ outcome (run store.client (call (z_queue.PopMinMulti 10) q) s1)
     = Returned (([E "a" 1; E "b" 2], None), q)
  /\ outcome (run store.client (call (z_queue.PopMaxMulti 10) q) s1)
     = Returned (([E "b" 2; E "a" 1], None), q).
Proof.
  cbv zeta.
  set (q := {| z_queue.Key := "q"; z_queue.Desc := false |}).
  set (s1 := final (run store.client (call (z_queue.AddMulti _ 0) q) store.empty)).
  set (zs := [ {| Z_Score := float64_of_int64 1; Z_Member := "a" |};
               {| Z_Score := float64_of_int64 2; Z_Member := "b" |} ]).
  assert (Hz0 : store.get_zset store.empty (z_queue.Key q) = inl []) by reflexivity.
  assert (Hz1 : store.get_zset s1 (z_queue.Key q) = inl zs) by (vm_compute; reflexivity).
  assert (Hc0 : Z.of_nat (length (@nil redis_Z)) <= 1) by (simpl; lia).
  assert (Hc1 : Z.of_nat (length zs) <= 10) by (simpl; lia).
  destruct (pops_on_empty_and_short (T := string) store.empty q [] 1 Hz0 Hc0)
    as (Hempty & _).
  destruct (pops_on_empty_and_short (T := string) s1 q zs 10 Hz1 Hc1)
    as (_ & Hmin & Hmax & _).
  split; [exact (Hempty eq_refl) |].
  split; [exact Hmin | exact Hmax].
Defined.

(** ** Scores through float64 *)

Lemma float64_of_int64_not_nan (x : int64) :
  - 2 ^ 53 <= x <= 2 ^ 53 -> store.is_nan (float64_of_int64 x) = false.
Proof.
  intros Hx. unfold float64_of_int64, binary_normalize.
  destruct x as [| p | p]; [reflexivity | |].
  - destruct (Z.eq_dec (Z.pos p) (2 ^ 53)) as [E | NE].
    + injection E as ->. reflexivity.
    + destruct (binary_round_small false p) as (m & e & -> & _); [lia | reflexivity].
  - destruct (Z.eq_dec (Z.pos p) (2 ^ 53)) as [E | NE].
    + injection E as ->. reflexivity.
    + destruct (binary_round_small true p) as (m & e & -> & _); [lia | reflexivity].
Qed.

Lemma z_insert_cons (x : redis_Z) (l : list redis_Z) :
  exists y l', store.z_insert x l = y :: l'.
Proof. destruct l as [| y l]; simpl; [| destruct (store.z_lt x y)]; eauto. Qed.

Lemma z_find_insert (x : redis_Z) (l : list redis_Z) :
  Forall (fun y => Z_Member y ≠ Z_Member x) l ->
  store.z_find (Z_Member x) (store.z_insert x l) = Some x.
Proof.
  unfold store.z_find.
  induction 1 as [| y l Hy _ IH]; simpl.
  - rewrite filter_cons_True by reflexivity. reflexivity.
  - destruct (store.z_lt x y).
    + rewrite filter_cons_True by reflexivity. reflexivity.
    + rewrite filter_cons_False by exact Hy. exact IH.
Qed.

Lemma z_find_add (x : redis_Z) (l : list redis_Z) :
  store.z_find (Z_Member x) (store.z_add x l) = Some x.
Proof.
  unfold store.z_add, store.z_remove. apply z_find_insert.
  apply Forall_forall. intros y Hy. apply list_elem_of_filter in Hy. tauto.
Qed.

(** ZADD of one member, with or without the expiry refresh behind it. *)
Lemma store_ZAdd_one (st : store.Store) (key : string) (z : redis_Z)
    (expire : Duration) (zs : list redis_Z) :
  store.get_zset st key = inl zs -> store.is_nan (Z_Score z) = false ->
  (reply store.client (Pipeline_Exec (P_ZAdd key [z] :: queue_Expire key expire)) st).2 = None
  /\ store.get_zset
       (next store.client (Pipeline_Exec (P_ZAdd key [z] :: queue_Expire key expire)) st) key
     = inl (store.z_add z zs).
Proof.
  intros Hz Hnan. unfold reply, next.
  cbn [store.client store.exec_cmds store.exec_cmd existsb foldl].
  rewrite Hz, Hnan. cbn [orb].
  destruct (z_insert_cons z (store.z_remove (Z_Member z) zs)) as (y & l' & E).
  unfold store.z_add. rewrite E. cbn [store.put_zset].
  unfold queue_Expire. destruct (0 <? expire) eqn:Hexp.
  - cbn [store.exec_cmds store.exec_cmd store.data].
    rewrite lookup_insert_eq.
    destruct (expire <=? 0) eqn:Hle; [apply Z.leb_le in Hle; apply Z.ltb_lt in Hexp; lia |].
    cbn [fst snd store.first_error p_err store.done_int]. split; [reflexivity |].
    unfold store.get_zset. cbn [store.data]. rewrite lookup_insert_eq. reflexivity.
  - cbn [store.exec_cmds fst snd store.first_error p_err store.done_int].
    split; [reflexivity |].
    unfold store.get_zset. cbn [store.data]. rewrite lookup_insert_eq. reflexivity.
Qed.

(** C9: an int64 score [x] with [|x| <= 2^53] is unchanged by [float64(x)]
    followed by [int64(.)]: the element [redisZToElement] builds from what
    [Add] and [AddMulti] send carries [x], and on the reference store
    [Score] after [Add(member, x)] returns [x] and no error. *)
Theorem score_survives_float64 {T : Type} {TT : Typex T}
    (st : store.Store) (q : z_queue.ZQueue) (zs : list redis_Z)
    (member : T) (x : int64) (expire : Duration) :
  - 2 ^ 53 <= x <= 2 ^ 53 ->
  store.get_zset st (z_queue.Key q) = inl zs ->
  int64_of_float64 (float64_of_int64 x) = x
  /\ z_queue.Score
       (z_queue.redisZToElement (T := T)
          {| Z_Score := float64_of_int64 x; Z_Member := ToString member |}) = x
  /\ (forall elements : list (z_queue.Element T),
      Forall (fun elem => - 2 ^ 53 <= z_queue.Score elem <= 2 ^ 53) elements ->
      map z_queue.Score
        (z_queue.redisZToElements (T := T)
           (map (fun elem => {| Z_Score := float64_of_int64 (z_queue.Score elem);
                                Z_Member := ToString (z_queue.Member elem) |}) elements))
      = map z_queue.Score elements)
  /\ outcome (run store.client (call (z_queue.Add member x expire) q) st)
     = Returned (None, q)
  /\ outcome (run store.client (call (z_queue.Score_ member) q)
                (final (run store.client (call (z_queue.Add member x expire) q) st)))
     = Returned ((x, None), q).
Proof.
  intros Hx Hz.
  pose proof (int64_of_float64_of_int64 x Hx) as Hround.
  pose proof (store_ZAdd_one st (z_queue.Key q)
                {| Z_Score := float64_of_int64 x; Z_Member := ToString member |}
                expire zs Hz (float64_of_int64_not_nan x Hx)) as [Herr Hnext].
  split; [exact Hround |].
  split; [exact Hround |].
  split.
  - unfold z_queue.redisZToElements.
    induction 1 as [| elem elements He _ IH]; [reflexivity |].
    cbn [map]. f_equal; [| exact IH].
    cbn [z_queue.redisZToElement z_queue.Score Z_Score].
    apply int64_of_float64_of_int64, He.
  - rewrite (Add_runs store.client st q member x expire).
    cbn [outcome final]. rewrite Herr. split; [reflexivity |].
    pose proof (z_find_add {| Z_Score := float64_of_int64 x; Z_Member := ToString member |}
                  zs) as Hfind.
    cbn [Z_Member] in Hfind.
    rewrite (Score_runs store.client _ q member). cbn [outcome].
    match goal with
    | |- context [reply store.client (ZScore ?k ?m) ?s'] =>
        assert (Hrep : reply store.client (ZScore k m) s' = (float64_of_int64 x, None))
    end.
    { unfold reply at 1. cbn [store.client]. rewrite Hnext, Hfind. reflexivity. }
    rewrite Hrep. cbn [fst snd]. rewrite Hround. reflexivity.
Qed.

Lemma score_survives_float64_witness :
  let q := {| z_queue.Key := "q"; z_queue.Desc := false |} in
  outcome (run store.client (call (z_queue.Score_ "job") q)
             (final (run store.client (call (z_queue.Add "job" (- 2 ^ 53) 30) q)
                       store.empty)))
  = Returned ((- 2 ^ 53, None), q).
Proof.
  cbv zeta.
  refine (proj2 (proj2 (proj2 (proj2
            (score_survives_float64 (T := string) store.empty
               {| z_queue.Key := "q"; z_queue.Desc := false |} [] "job" (- 2 ^ 53) 30
               _ _))))); [lia | reflexivity].
Defined.

(** Past 2^53 the conversion rounds: the bound of C9 cannot be widened. *)
Example score_precision_limit :
  int64_of_float64 (float64_of_int64 (2 ^ 53 + 1)) = 2 ^ 53
  /\ int64_of_float64 (float64_of_int64 (- 2 ^ 53 - 1)) = - 2 ^ 53
  /\ int64_of_float64 (float64_of_int64 max_int64) = min_int64.
Proof. vm_compute. repeat split. Qed.

(** ** Decode failures *)

Section Decoding.
Context {K V : Type} `{Countable K} {TK : Typex K} {TV : Typex V}.

Lemma decode_loop_fails {T : Type} {TT : Typex T} (strs : list string) :
  forall result : list T,
  Exists (fun str => (ToAnyE (T := T) str).2 ≠ None) strs ->
  exists str e, str ∈ strs /\ (ToAnyE (T := T) str).2 = Some e
                /\ hash_map.decode_loop strs result = ([], Some e).
Proof.
  induction strs as [| str strs IH]; intros result Hex.
  - inversion Hex.
  - cbn [hash_map.decode_loop].
    destruct (ToAnyE (T := T) str) as [x [e |]] eqn:E.
    + exists str, e. rewrite E. split; [left | split; reflexivity].
    + apply Exists_cons in Hex as [Hbad | Hex]; [rewrite E in Hbad; contradiction |].
      destruct (IH (result ++ [x]) Hex) as (str' & e & Hin & He & Hloop).
      exists str', e. split; [right; exact Hin | split; assumption].
Qed.


Lemma GetAll_loop_fails (vals : list (string * string)) :
  forall result : gmap K V,
  Exists (undecodable_entry (K := K) (V := V)) vals ->
  exists kv e, kv ∈ vals
               /\ ((ToAnyE (T := K) kv.1).2 = Some e \/ (ToAnyE (T := V) kv.2).2 = Some e)
               /\ hash_map.GetAll_loop vals result = (∅, Some e).
Proof.
  induction vals as [| [k v] vals IH]; intros result Hex.
  - inversion Hex.
  - cbn [hash_map.GetAll_loop].
    destruct (ToAnyE (T := K) k) as [key [e |]] eqn:Ek.
    { exists (k, v), e. cbn [fst snd]. rewrite Ek.
      split; [left | split; [left |]; reflexivity]. }
    destruct (ToAnyE (T := V) v) as [val [e |]] eqn:Ev.
    { exists (k, v), e. cbn [fst snd]. rewrite Ev.
      split; [left | split; [right |]; reflexivity]. }
    apply Exists_cons in Hex as [[Hbad | Hbad] | Hex].
    + cbn [fst] in Hbad. rewrite Ek in Hbad. contradiction.
    + cbn [snd] in Hbad. rewrite Ev in Hbad. contradiction.
    + destruct (IH (<[key := val]> result) Hex) as (kv & e & Hin & He & Hloop).
      exists kv, e. split; [right; exact Hin | split; assumption].
Qed.


Lemma GetMulti_loop_fails (h : hash_map.HashMap) (fields : list K)
    (vals : list (option string)) :
  forall (i : nat) (result : gmap K V),
  (i + length vals <= length fields)%nat ->
  Exists (undecodable_value (V := V)) vals ->
  exists str e, Some str ∈ vals /\ (ToAnyE (T := V) str).2 = Some e
                /\ call (hash_map.GetMulti_loop fields i vals result) h
                   = Ret ((∅, Some e), h).
Proof.
  induction vals as [| o vals IH]; intros i result Hlen Hex.
  - inversion Hex.
  - cbn [length] in Hlen. destruct o as [str |].
    + cbn [hash_map.GetMulti_loop].
      destruct (ToAnyE (T := V) str) as [v [e |]] eqn:E.
      { exists str, e. rewrite E. split; [left | split; reflexivity]. }
      apply Exists_cons in Hex as [(str' & [= <-] & Hbad) | Hex];
        [rewrite E in Hbad; contradiction |].
      destruct (lookup_lt_is_Some_2 fields i ltac:(lia)) as [f Hf]. rewrite Hf.
      destruct (IH (S i) (<[f := v]> result) ltac:(lia) Hex) as (str' & e & Hin & He & Hloop).
      exists str', e. split; [right; exact Hin | split; assumption].
    + cbn [hash_map.GetMulti_loop].
      apply Exists_cons in Hex as [(str' & [=] & _) | Hex].
      destruct (IH (S i) result ltac:(lia) Hex) as (str' & e & Hin & He & Hloop).
      exists str', e. split; [right; exact Hin | split; assumption].
Qed.

End Decoding.

Section DecodingCalls.
Context {St : Type} (c : Client St) (s : St).
Context {K V : Type} `{Countable K} {TK : Typex K} {TV : Typex V}.
Context (h : hash_map.HashMap).

Lemma GetAll_runs :
  runs_command c s (call (hash_map.GetAll (K := K) (V := V)) h)
    (HGetAll (hash_map.Key h))
    (fun r => (match r.2 with
               | Some e => (∅, Some e)
               | None => hash_map.GetAll_loop r.1 ∅
               end, h)).
Proof. apply runs_command_intro. intros [vals [e |]]; reflexivity. Qed.

Lemma Keys_runs :
  runs_command c s (call (hash_map.Keys (K := K)) h)
    (HKeys (hash_map.Key h))
    (fun r => (match r.2 with
               | Some e => ([], Some e)
               | None => hash_map.decode_loop r.1 []
               end, h)).
Proof. apply runs_command_intro. intros [vals [e |]]; reflexivity. Qed.

Lemma Values_runs :
  runs_command c s (call (hash_map.Values (V := V)) h)
    (HVals (hash_map.Key h))
    (fun r => (match r.2 with
               | Some e => ([], Some e)
               | None => hash_map.decode_loop r.1 []
               end, h)).
Proof. apply runs_command_intro. intros [vals [e |]]; reflexivity. Qed.

Lemma GetMulti_fails (fields : list K) (vals : list (option string)) :
  fields ≠ [] ->
  reply c (HMGet (hash_map.Key h) (map ToString fields)) s = (vals, None) ->
  length vals = length fields ->
  Exists (undecodable_value (V := V)) vals ->
  exists str e, Some str ∈ vals /\ (ToAnyE (T := V) str).2 = Some e
                /\ outcome (run c (call (hash_map.GetMulti (V := V) fields) h) s)
                   = Returned ((∅, Some e), h).
Proof.
  intros Hne Hr Hlen Hex.
  destruct (GetMulti_loop_fails h fields vals 0 ∅ ltac:(lia) Hex)
    as (str & e & Hin & He & Hloop).
  exists str, e. split; [exact Hin | split; [exact He |]].
  unfold hash_map.GetMulti.
  destruct fields as [| f fields]; [contradiction |].
  cbn [length Nat.eqb]. cbn [mbind Method_bind call recv Cli Prog_bind fst snd hash_map.Key].
  rewrite run_Vis. cbn [outcome]. rewrite Hr. cbn [Prog_bind fst snd call].
  rewrite Hloop. reflexivity.
Qed.

End DecodingCalls.

(** C6, as stated, at a range and a pop over a member that does not decode:
    the member ["abc"] is no int64, and [RangeByScore] and [PopMin] on a
    [ZQueue] of int64 return it as 0 with a nil error. *)
Lemma range_and_pop_hide_decode_failure :
  let q := {| z_queue.Key := "q"; z_queue.Desc := false |} in
  let s1 := final (run store.client (call (z_queue.Add "abc" 1 0) q) store.empty) in
  ToAnyE (T := int64) "abc" = (0, Some (ConversionError "invalid syntax"))
  /\ outcome (run store.client (call (z_queue.RangeByScore (T := int64) 0 10) q) s1)
     = Returned (([ {| z_queue.Member := 0; z_queue.Score := 1 |} ], None), q)
  /\ outcome (run store.client (call (z_queue.PopMin (T := int64)) q) s1)
     = Returned ((Some {| z_queue.Member := 0; z_queue.Score := 1 |}, None), q).
Proof. vm_compute. repeat split. Qed.

(** C6 (amended): in the [HashMap] calls a stored text that does not decode
    is returned to the caller as the error of the call: [Get] returns what
    [typex.ToAnyE] returns, and [GetMulti], [GetAll], [Keys] and [Values]
    stop at the first entry that fails and return its error with no data
    ([GetMulti] given one answer per requested field).  The [ZQueue] range
    and pop calls convert members with [typex.ToAny], which has no error
    result: they return a nil error whenever the client reports none. *)
Theorem decode_failures_in_results {St : Type} (c : Client St) (s : St)
    {K V T : Type} `{Countable K} {TK : Typex K} {TV : Typex V} {TT : Typex T}
    {TI : Typex int64} (h : hash_map.HashMap) (q : z_queue.ZQueue) :
  (forall (field : K) (val : string),
      reply c (HGet (hash_map.Key h) (ToString field)) s = (val, None) ->
      outcome (run c (call (hash_map.Get (V := V) field) h) s)
      = Returned (ToAnyE val, h))
  /\ (forall (fields : list K) (vals : list (option string)),
      fields ≠ [] ->
      reply c (HMGet (hash_map.Key h) (map ToString fields)) s = (vals, None) ->
      length vals = length fields ->
      Exists (undecodable_value (V := V)) vals ->
      exists str e, Some str ∈ vals /\ (ToAnyE (T := V) str).2 = Some e
                    /\ outcome (run c (call (hash_map.GetMulti (V := V) fields) h) s)
                       = Returned ((∅, Some e), h))
  /\ (forall vals : list (string * string),
      reply c (HGetAll (hash_map.Key h)) s = (vals, None) ->
      Exists (undecodable_entry (K := K) (V := V)) vals ->
      exists kv e, kv ∈ vals
                   /\ ((ToAnyE (T := K) kv.1).2 = Some e \/ (ToAnyE (T := V) kv.2).2 = Some e)
                   /\ outcome (run c (call (hash_map.GetAll (K := K) (V := V)) h) s)
                      = Returned ((∅, Some e), h))
  /\ (forall keys : list string,
      reply c (HKeys (hash_map.Key h)) s = (keys, None) ->
      Exists (fun str => (ToAnyE (T := K) str).2 ≠ None) keys ->
      exists str e, str ∈ keys /\ (ToAnyE (T := K) str).2 = Some e
                    /\ outcome (run c (call (hash_map.Keys (K := K)) h) s)
                       = Returned (([], Some e), h))
  /\ (forall vals : list string,
      reply c (HVals (hash_map.Key h)) s = (vals, None) ->
      Exists (fun str => (ToAnyE (T := V) str).2 ≠ None) vals ->
      exists str e, str ∈ vals /\ (ToAnyE (T := V) str).2 = Some e
                    /\ outcome (run c (call (hash_map.Values (V := V)) h) s)
                       = Returned (([], Some e), h))
  /\ (forall (minScore maxScore offset count : int64) (desc : bool) (zs : list redis_Z),
      reply c (range_command desc (z_queue.Key q)
                 (range_opt minScore maxScore offset count)) s = (zs, None) ->
      outcome (run c (call (z_queue.rangeByScoreInternal (T := T)
                              minScore maxScore offset count desc) q) s)
      = Returned ((map (fun z => {| z_queue.Member := ToAny (Z_Member z);
                                    z_queue.Score := int64_of_float64 (Z_Score z) |}) zs,
                   None), q))
  /\ (forall (count : int64) (zs : list redis_Z),
      (reply c (ZPopMin (z_queue.Key q) count) s = (zs, None) ->
       outcome (run c (call (z_queue.PopMinMulti (T := T) count) q) s)
       = Returned ((z_queue.redisZToElements zs, None), q))
      /\ (reply c (ZPopMax (z_queue.Key q) count) s = (zs, None) ->
          outcome (run c (call (z_queue.PopMaxMulti (T := T) count) q) s)
          = Returned ((z_queue.redisZToElements zs, None), q)))
  /\ (forall (z : redis_Z) (zs : list redis_Z),
      (reply c (ZPopMin (z_queue.Key q) 1) s = (z :: zs, None) ->
       outcome (run c (call (z_queue.PopMin (T := T)) q) s)
       = Returned ((Some (z_queue.redisZToElement z), None), q))
      /\ (reply c (ZPopMax (z_queue.Key q) 1) s = (z :: zs, None) ->
          outcome (run c (call (z_queue.PopMax (T := T)) q) s)
          = Returned ((Some (z_queue.redisZToElement z), None), q))).
Proof.
  split; [| split; [| split; [| split; [| split; [| split; [| split]]]]]].
  - intros field val Hr. rewrite (Get_runs c s h field), Hr. reflexivity.
  - intros fields vals. apply GetMulti_fails.
  - intros vals Hr Hex.
    destruct (GetAll_loop_fails vals ∅ Hex) as (kv & e & Hin & He & Hloop).
    exists kv, e. split; [exact Hin | split; [exact He |]].
    rewrite (GetAll_runs c s h), Hr. cbn [outcome fst snd]. rewrite Hloop. reflexivity.
  - intros keys Hr Hex.
    destruct (decode_loop_fails keys [] Hex) as (str & e & Hin & He & Hloop).
    exists str, e. split; [exact Hin | split; [exact He |]].
    rewrite (Keys_runs c s h), Hr. cbn [outcome fst snd]. rewrite Hloop. reflexivity.
  - intros vals Hr Hex.
    destruct (decode_loop_fails vals [] Hex) as (str & e & Hin & He & Hloop).
    exists str, e. split; [exact Hin | split; [exact He |]].
    rewrite (Values_runs c s h), Hr. cbn [outcome fst snd]. rewrite Hloop. reflexivity.
  - intros minScore maxScore offset count desc zs Hr.
    rewrite (rangeByScoreInternal_runs c s q minScore maxScore offset count desc), Hr.
    reflexivity.
  - intros count zs. split; intros Hr.
    + rewrite (PopMinMulti_runs c s q count), Hr. reflexivity.
    + rewrite (PopMaxMulti_runs c s q count), Hr. reflexivity.
  - intros z zs. split; intros Hr.
    + rewrite (PopMin_runs c s q), Hr. reflexivity.
    + rewrite (PopMax_runs c s q), Hr. reflexivity.
Qed.

Lemma decode_failures_in_results_witness :
  let h := hash_map.NewHashMap "h" in
  let s1 := final (run store.client
                     (call (hash_map.SetMulti ({[ "n" := "xyz" ]} : gmap string string) 0) h)
                     store.empty) in
  outcome (run store.client (call (hash_map.Get (K := string) (V := int64) "n") h) s1)
  = Returned ((0, Some (ConversionError "invalid syntax")), h)
  /\ exists str e, str ∈ ["xyz"] /\ (ToAnyE (T := int64) str).2 = Some e
                   /\ outcome (run store.client
                                 (call (hash_map.Values (V := int64)) h) s1)
                      = Returned (([], Some e), h).
Proof.
  cbv zeta.
  set (h := hash_map.NewHashMap "h").
  set (s1 := final (run store.client (call (hash_map.SetMulti _ 0) h) store.empty)).
  destruct (decode_failures_in_results store.client s1 (K := string) (V := int64)
              (T := string) h {| z_queue.Key := "q"; z_queue.Desc := false |})
    as (HGet & _ & _ & _ & HValues & _).
  split.
  - exact (HGet "n" "xyz" eq_refl).
  - apply HValues; [reflexivity |].
    apply Exists_cons_hd. discriminate.
Defined.

(** ** The adapters on the reference store *)

(** A hash of int64 values: a field reads back what was set, reads as zero
    once deleted, counts from zero, and a write with a positive [expire]
    leaves the key with that expiry. *)
Example hash_on_store :
  let h := hash_map.NewHashMap "h" in
  let result := fun {A : Type} (m : Method hash_map.HashMap A) =>
                  outcome (run store.client (call m h) store.empty) in
  result (_ ← hash_map.Set_ "f" (42 : int64) 0; hash_map.Get (V := int64) "f")
  = Returned ((42, None), h)
  /\ result (_ ← hash_map.Set_ "f" (42 : int64) 0;
             _ ← hash_map.Delete ["f"];
             hash_map.Get (V := int64) "f")
     = Returned ((0, None), h)
  /\ result (_ ← hash_map.Incr "f" 5 0; hash_map.Incr "f" 3 0)
     = Returned ((8, None), h)
  /\ result (_ ← hash_map.SetMulti ({[ "a" := 1; "b" := 2 ]} : gmap string int64) 0;
             hash_map.GetMulti (V := int64) ["a"; "x"; "b"])
     = Returned (({[ "a" := 1; "b" := 2 ]}, None), h)
  /\ store.expiry
       (final (run store.client (call (hash_map.Set_ "f" (42 : int64) 5) h) store.empty))
     !! "h" = Some 5.
Proof. vm_compute. repeat split. Qed.

(** A queue of strings: [PopMin] takes the lowest element and leaves the
    rest, and removing the whole score range returns the former count. *)
Example queue_on_store :
  let q := {| z_queue.Key := "q"; z_queue.Desc := false |} in
  let E := fun (m : string) (sc : int64) => {| z_queue.Member := m; z_queue.Score := sc |} in
  let result := fun {A : Type} (m : Method z_queue.ZQueue A) =>
                  outcome (run store.client (call m q) store.empty) in
  result (_ ← z_queue.AddMulti [E "a" 1; E "b" 2] 0;
          popped ← z_queue.PopMin (T := string);
          left ← z_queue.RangeByScore (T := string) (-1) (-1);
          mret (popped, left))
  = Returned (((Some (E "a" 1), None), ([E "b" 2], None)), q)
  /\ result (_ ← z_queue.AddMulti [E "a" 1; E "b" 2; E "c" 3] 0;
             before ← z_queue.Count_;
             removed ← z_queue.RemoveRangeByScore "-inf" "+inf";
             after ← z_queue.Count_;
             mret (before, removed, after))
     = Returned (((3, None), (3, None), (0, None)), q).
Proof. vm_compute. repeat split. Qed.


(** ** One round trip, one key *)

Lemma queue_Expire_keys (key : string) (expire : Duration) :
  Forall (eq key) (map PipeCmd_key (queue_Expire key expire)).
Proof. unfold queue_Expire. destruct (0 <? expire); repeat constructor. Qed.

Lemma one_trip_batch {St A R : Type} (c : Client St) (s : St) (p : Prog (A * R))
    (key : string) (recv : R) (w : PipeCmd) (expire : Duration)
    (result : list PipeResult * option error -> A) :
  PipeCmd_key w = key ->
  runs_batch c s p (w :: queue_Expire key expire) (fun r => (result r, recv)) ->
  one_trip_on key recv (run c p s).
Proof.
  intros Hw Hrun. unfold runs_batch in Hrun. rewrite Hrun. unfold one_trip_on.
  cbn [sent outcome length]. split; [lia |]. split.
  - constructor; [| constructor]. cbn [Request_keys redisE_keys map].
    constructor; [symmetry; exact Hw | apply queue_Expire_keys].
  - intros a q' [= _ <-]. reflexivity.
Qed.

Lemma one_trip_command {St A R X : Type} (c : Client St) (s : St) (p : Prog (A * R))
    (key : string) (recv : R) (e : redisE X) (result : X -> A) :
  redisE_keys e = [key] ->
  runs_command c s p e (fun x => (result x, recv)) ->
  one_trip_on key recv (run c p s).
Proof.
  intros He Hrun. unfold runs_command in Hrun. rewrite Hrun. unfold one_trip_on.
  cbn [sent outcome length]. split; [lia |]. split.
  - constructor; [| constructor]. cbn [Request_keys]. rewrite He. repeat constructor.
  - intros a q' [= _ <-]. reflexivity.
Qed.

Lemma one_trip_silent {St A R : Type} (c : Client St) (s : St) (a : A)
    (key : string) (recv : R) :
  one_trip_on key recv (run c (Ret (a, recv)) s).
Proof.
  unfold one_trip_on. cbn [run sent outcome length].
  split; [lia |]. split; [constructor |]. intros a' q' [= _ <-]. reflexivity.
Qed.

Ltac trip_command Hrun :=
  refine (one_trip_command _ _ _ _ _ _ _ _ Hrun); reflexivity.

Ltac trip_batch Hrun :=
  refine (one_trip_batch _ _ _ _ _ _ _ _ _ Hrun); reflexivity.

Section HashMapCalls.
Context {St : Type} (c : Client St) (s : St).
Context {K V : Type} `{Countable K} {TK : Typex K} {TV : Typex V}.
Context (h : hash_map.HashMap).

Lemma Delete_runs (fields : list K) :
  fields ≠ [] ->
  runs_command c s (call (hash_map.Delete fields) h)
    (HDel (hash_map.Key h) (map ToString fields)) (fun err => (err, h)).
Proof.
  intros Hne. destruct fields as [| f fields]; [contradiction |].
  apply runs_command_intro. reflexivity.
Qed.

Lemma Exists_runs (field : K) :
  runs_command c s (call (hash_map.Exists field) h)
    (HExists (hash_map.Key h) (ToString field)) (fun r => (r, h)).
Proof. apply runs_command_intro. reflexivity. Qed.

Lemma Len_runs :
  runs_command c s (call hash_map.Len h) (HLen (hash_map.Key h)) (fun r => (r, h)).
Proof. apply runs_command_intro. reflexivity. Qed.

(** The loop of [GetMulti] sends nothing and keeps the receiver. *)
Lemma GetMulti_loop_silent (fields : list K) (vals : list (option string)) :
  forall (i : nat) (result : gmap K V),
  (exists r, call (hash_map.GetMulti_loop fields i vals result) h = Ret (r, h))
  \/ (exists msg, call (hash_map.GetMulti_loop fields i vals result) h = Panic msg).
Proof.
  induction vals as [| [str |] vals IH]; intros i result; cbn [hash_map.GetMulti_loop].
  - left. eexists. reflexivity.
  - destruct (ToAnyE (T := V) str) as [v [e |]].
    + left. eexists. reflexivity.
    + destruct (fields !! i) as [f |]; [apply IH |].
      right. eexists. reflexivity.
  - apply IH.
Qed.

Lemma GetMulti_one_trip (fields : list K) :
  one_trip_on (hash_map.Key h) h (run c (call (hash_map.GetMulti (V := V) fields) h) s).
Proof.
  unfold hash_map.GetMulti. destruct fields as [| f fields].
  - apply one_trip_silent.
  - cbn [length Nat.eqb mbind Method_bind call recv Cli Prog_bind fst snd].
    rewrite run_Vis.
    destruct (reply c (HMGet (hash_map.Key h) (map ToString (f :: fields))) s)
      as [vals [e |]]; cbn [Prog_bind fst snd call].
    + unfold one_trip_on. cbn. split; [lia |].
      split; [repeat constructor |]. intros a q' [= _ <-]. reflexivity.
    + destruct (GetMulti_loop_silent (f :: fields) vals 0 ∅) as [[r ->] | [msg ->]];
        unfold one_trip_on; cbn; (split; [lia |]); (split; [repeat constructor |]).
      * intros a q' [= _ <-]. reflexivity.
      * intros a q' [=].
Qed.

End HashMapCalls.

(** X1: every [HashMap] call makes at most one round trip to the client,
    every command it sends (every command queued on its pipeline) names
    the receiver's [Key] and no other key, and a call that returns gives
    back the receiver unchanged. *)
Theorem HashMap_calls_one_trip {St : Type} (c : Client St) (s : St)
    {K V : Type} `{Countable K} {TK : Typex K} {TV : Typex V} (h : hash_map.HashMap) :
  let ok := fun {A : Type} (m : Method hash_map.HashMap A) =>
              one_trip_on (hash_map.Key h) h (run c (call m h) s) in
  (forall (field : K) (value : V) (expire : Duration),
      ok (hash_map.Set_ field value expire))
  /\ (forall (fields : gmap K V) (expire : Duration), ok (hash_map.SetMulti fields expire))
  /\ (forall field : K, ok (hash_map.Get (V := V) field))
  /\ (forall fields : list K, ok (hash_map.GetMulti (V := V) fields))
  /\ ok (hash_map.GetAll (K := K) (V := V))
  /\ (forall fields : list K, ok (hash_map.Delete fields))
  /\ (forall field : K, ok (hash_map.Exists field))
  /\ ok hash_map.Len
  /\ ok (hash_map.Keys (K := K))
  /\ ok (hash_map.Values (V := V))
  /\ (forall (field : K) (increment : int64) (expire : Duration),
      ok (hash_map.Incr field increment expire))
  /\ (forall (field : K) (increment : float64) (expire : Duration),
      ok (hash_map.IncrFloat field increment expire)).
Proof.
  cbv zeta.
  split; [intros; trip_batch (Set_runs c s h field value expire) |].
  split.
  { intros fields expire. destruct (decide (fields = ∅)) as [-> | Hne].
    - rewrite (SetMulti_empty_runs c s h expire).
      exact (one_trip_silent c s None (hash_map.Key h) h).
    - trip_batch (SetMulti_runs c s h fields expire Hne). }
  split; [intros; trip_command (Get_runs (V := V) c s h field) |].
  split; [intros; apply GetMulti_one_trip |].
  split; [trip_command (GetAll_runs (K := K) (V := V) c s h) |].
  split.
  { intros [| f fields].
    - exact (one_trip_silent c s None (hash_map.Key h) h).
    - trip_command (Delete_runs c s h (f :: fields) ltac:(discriminate)). }
  split; [intros; trip_command (Exists_runs c s h field) |].
  split; [trip_command (Len_runs c s h) |].
  split; [trip_command (Keys_runs (K := K) c s h) |].
  split; [trip_command (Values_runs (V := V) c s h) |].
  split; [intros; trip_batch (Incr_runs c s h field increment expire) |].
  intros; trip_batch (IncrFloat_runs c s h field increment expire).
Qed.

Section ZQueueCalls.
Context {St : Type} (c : Client St) (s : St).
Context {T : Type} {TT : Typex T}.
Context (q : z_queue.ZQueue).

Lemma Remove_runs (member : T) :
  runs_command c s (call (z_queue.Remove member) q)
    (ZRem (z_queue.Key q) [ToString member]) (fun err => (err, q)).
Proof. apply runs_command_intro. reflexivity. Qed.

Lemma RemoveRangeByScore_runs (min max : string) :
  runs_command c s (call (z_queue.RemoveRangeByScore min max) q)
    (ZRemRangeByScore (z_queue.Key q) min max) (fun r => (r, q)).
Proof. apply runs_command_intro. reflexivity. Qed.

Lemma Count_runs :
  runs_command c s (call z_queue.Count_ q) (ZCard (z_queue.Key q)) (fun r => (r, q)).
Proof. apply runs_command_intro. reflexivity. Qed.

Lemma CountByScore_runs (min max : string) :
  runs_command c s (call (z_queue.CountByScore min max) q)
    (ZCount (z_queue.Key q) min max) (fun r => (r, q)).
Proof. apply runs_command_intro. reflexivity. Qed.

End ZQueueCalls.

Lemma range_command_keys (desc : bool) (key : string) (opt : ZRangeBy) :
  redisE_keys (range_command desc key opt) = [key].
Proof. destruct desc; reflexivity. Qed.

(** X2: every [ZQueue] call makes exactly one round trip to the client,
    every command it sends (every command queued on its pipeline) names
    the receiver's [Key] and no other key, and the call gives back the
    receiver unchanged. *)
Theorem ZQueue_calls_one_trip {St : Type} (c : Client St) (s : St)
    {T : Type} {TT : Typex T} {TI : Typex int64} (q : z_queue.ZQueue) :
  let ok := fun {A : Type} (m : Method z_queue.ZQueue A) =>
              one_trip_on (z_queue.Key q) q (run c (call m q) s)
              /\ length (sent (run c (call m q) s)) = 1%nat in
  (forall (member : T) (score : int64) (expire : Duration),
      ok (z_queue.Add member score expire))
  /\ (forall (elements : list (z_queue.Element T)) (expire : Duration),
      ok (z_queue.AddMulti elements expire))
  /\ (forall member : T, ok (z_queue.Remove member))
  /\ (forall members : list T, ok (z_queue.RemoveMulti members))
  /\ (forall (minScore maxScore offset count : int64) (desc : bool),
      ok (z_queue.rangeByScoreInternal (T := T) minScore maxScore offset count desc))
  /\ (forall minScore maxScore offset count : int64,
      ok (z_queue.RangeByScore (T := T) minScore maxScore)
      /\ ok (z_queue.RangeByScoreWithLimit (T := T) minScore maxScore offset count)
      /\ ok (z_queue.RangeFromScore (T := T) minScore)
      /\ ok (z_queue.RangeToScore (T := T) maxScore)
      /\ ok (z_queue.RangeByScoreRev (T := T) minScore maxScore)
      /\ ok (z_queue.RangeByScoreWithLimitRev (T := T) minScore maxScore offset count)
      /\ ok (z_queue.RangeFromScoreRev (T := T) minScore)
      /\ ok (z_queue.RangeToScoreRev (T := T) maxScore))
  /\ ok (z_queue.PopMin (T := T))
  /\ ok (z_queue.PopMax (T := T))
  /\ (forall count : int64,
      ok (z_queue.PopMinMulti (T := T) count) /\ ok (z_queue.PopMaxMulti (T := T) count))
  /\ (forall min max : string,
      ok (z_queue.RemoveRangeByScore min max) /\ ok (z_queue.CountByScore min max))
  /\ ok z_queue.Count_
  /\ (forall member : T, ok (z_queue.Score_ member)).
Proof.
  cbv zeta.
  assert (Hbatch : forall (A : Type) (p : Prog (A * z_queue.ZQueue)) (w : PipeCmd)
                     (expire : Duration) (result : list PipeResult * option error -> A),
             PipeCmd_key w = z_queue.Key q ->
             runs_batch c s p (w :: queue_Expire (z_queue.Key q) expire)
               (fun r => (result r, q)) ->
             one_trip_on (z_queue.Key q) q (run c p s) /\ length (sent (run c p s)) = 1%nat).
  { intros A p w expire result Hw Hrun.
    split; [exact (one_trip_batch c s p _ q w expire result Hw Hrun) |].
    unfold runs_batch in Hrun. rewrite Hrun. reflexivity. }
  assert (Hcmd : forall (A X : Type) (p : Prog (A * z_queue.ZQueue)) (e : redisE X)
                   (result : X -> A),
             redisE_keys e = [z_queue.Key q] ->
             runs_command c s p e (fun x => (result x, q)) ->
             one_trip_on (z_queue.Key q) q (run c p s) /\ length (sent (run c p s)) = 1%nat).
  { intros A X p e result He Hrun.
    split; [exact (one_trip_command c s p _ q e result He Hrun) |].
    unfold runs_command in Hrun. rewrite Hrun. reflexivity. }
  assert (Hrange : forall (minScore maxScore offset count : int64) (desc : bool),
             one_trip_on (z_queue.Key q) q
               (run c (call (z_queue.rangeByScoreInternal (T := T)
                               minScore maxScore offset count desc) q) s)
             /\ length (sent (run c (call (z_queue.rangeByScoreInternal (T := T)
                               minScore maxScore offset count desc) q) s)) = 1%nat).
  { intros. exact (Hcmd _ _ _ _ _ (range_command_keys desc _ _)
                     (rangeByScoreInternal_runs c s q minScore maxScore offset count desc)). }
  split; [intros; refine (Hbatch _ _ _ expire _ _ (Add_runs c s q member score expire)); reflexivity |].
  split; [intros; refine (Hbatch _ _ _ expire _ _ (AddMulti_runs c s q elements expire)); reflexivity |].
  split; [intros; refine (Hcmd _ _ _ _ _ _ (Remove_runs c s q member)); reflexivity |].
  split; [intros; refine (Hcmd _ _ _ _ _ _ (RemoveMulti_runs c s q members)); reflexivity |].
  split; [exact Hrange |].
  split.
  { intros minScore maxScore offset count.
    split; [exact (Hrange minScore maxScore 0 (-1) (z_queue.Desc q)) |].
    split; [exact (Hrange minScore maxScore offset count (z_queue.Desc q)) |].
    split; [exact (Hrange minScore (-1) 0 (-1) (z_queue.Desc q)) |].
    split; [exact (Hrange (-1) maxScore 0 (-1) (z_queue.Desc q)) |].
    split; [exact (Hrange minScore maxScore 0 (-1) (negb (z_queue.Desc q))) |].
    split; [exact (Hrange minScore maxScore offset count (negb (z_queue.Desc q))) |].
    split; [exact (Hrange minScore (-1) 0 (-1) (negb (z_queue.Desc q))) |].
    exact (Hrange (-1) maxScore 0 (-1) (negb (z_queue.Desc q))). }
  split; [refine (Hcmd _ _ _ _ _ _ (PopMin_runs c s q)); reflexivity |].
  split; [refine (Hcmd _ _ _ _ _ _ (PopMax_runs c s q)); reflexivity |].
  split.
  { intros count. split.
    - refine (Hcmd _ _ _ _ _ _ (PopMinMulti_runs c s q count)); reflexivity.
    - refine (Hcmd _ _ _ _ _ _ (PopMaxMulti_runs c s q count)); reflexivity. }
  split.
  { intros min max. split.
    - refine (Hcmd _ _ _ _ _ _ (RemoveRangeByScore_runs c s q min max)); reflexivity.
    - refine (Hcmd _ _ _ _ _ _ (CountByScore_runs c s q min max)); reflexivity. }
  split; [refine (Hcmd _ _ _ _ _ _ (Count_runs c s q)); reflexivity |].
  intros member. refine (Hcmd _ _ _ _ _ _ (Score_runs c s q member)); reflexivity.
Qed.


(** ** Errors from the client *)

(** X3: when the client reports an error, the reading [HashMap] calls
    return that error and no data, whatever came with it: [Get] for any
    error other than [redis.Nil], and [GetMulti], [GetAll], [Keys],
    [Values] for any error at all. *)
Theorem HashMap_reads_pass_errors {St : Type} (c : Client St) (s : St)
    {K V : Type} `{Countable K} {TK : Typex K} {TV : Typex V}
    (h : hash_map.HashMap) (e : error) :
  (forall (field : K) (val : string),
      reply c (HGet (hash_map.Key h) (ToString field)) s = (val, Some e) ->
      is_redis_Nil e = false ->
      outcome (run c (call (hash_map.Get (V := V) field) h) s)
      = Returned ((zero, Some e), h))
  /\ (forall (fields : list K) (vals : list (option string)),
      fields ≠ [] ->
      reply c (HMGet (hash_map.Key h) (map ToString fields)) s = (vals, Some e) ->
      outcome (run c (call (hash_map.GetMulti (V := V) fields) h) s)
      = Returned ((∅, Some e), h))
  /\ (forall vals : list (string * string),
      reply c (HGetAll (hash_map.Key h)) s = (vals, Some e) ->
      outcome (run c (call (hash_map.GetAll (K := K) (V := V)) h) s)
      = Returned ((∅, Some e), h))
  /\ (forall keys : list string,
      reply c (HKeys (hash_map.Key h)) s = (keys, Some e) ->
      outcome (run c (call (hash_map.Keys (K := K)) h) s) = Returned (([], Some e), h))
  /\ (forall vals : list string,
      reply c (HVals (hash_map.Key h)) s = (vals, Some e) ->
      outcome (run c (call (hash_map.Values (V := V)) h) s) = Returned (([], Some e), h)).
Proof.
  split; [| split; [| split; [| split]]].
  - intros field val Hr Hnil.
    rewrite (Get_runs (V := V) c s h field), Hr. cbn [outcome fst snd].
    rewrite Hnil. reflexivity.
  - intros [| f fields] vals Hne Hr; [contradiction |].
    unfold hash_map.GetMulti.
    cbn [length Nat.eqb mbind Method_bind call recv Cli Prog_bind fst snd].
    rewrite run_Vis. cbn [outcome]. rewrite Hr. reflexivity.
  - intros vals Hr. rewrite (GetAll_runs (K := K) (V := V) c s h), Hr. reflexivity.
  - intros keys Hr. rewrite (Keys_runs (K := K) c s h), Hr. reflexivity.
  - intros vals Hr. rewrite (Values_runs (V := V) c s h), Hr. reflexivity.
Qed.

Lemma HashMap_reads_pass_errors_witness :
  let h := hash_map.NewHashMap "k" in
  let s1 := final (run store.client
                     (call (z_queue.Add "m" 1 0) {| z_queue.Key := "k"; z_queue.Desc := false |})
                     store.empty) in
  outcome (run store.client (call (hash_map.Get (K := string) (V := int64) "f") h) s1)
  = Returned ((0, Some store.WRONGTYPE), h)
  /\ outcome (run store.client (call (hash_map.GetAll (K := string) (V := int64)) h) s1)
     = Returned ((∅, Some store.WRONGTYPE), h).
Proof.
  cbv zeta.
  set (h := hash_map.NewHashMap "k").
  set (s1 := final (run store.client (call (z_queue.Add "m" 1 0) _) store.empty)).
  destruct (HashMap_reads_pass_errors store.client s1 (K := string) (V := int64) h
              store.WRONGTYPE) as (HGet & _ & HGetAll & _).
  split.
  - exact (HGet "f" "" eq_refl eq_refl).
  - exact (HGetAll [] eq_refl).
Defined.

(** X4: when the client reports an error, the range and pop calls of
    [ZQueue] return that error and no element, whatever came with it. *)
Theorem ZQueue_reads_pass_errors {St : Type} (c : Client St) (s : St)
    {T : Type} {TT : Typex T} {TI : Typex int64}
    (q : z_queue.ZQueue) (e : error) (zs : list redis_Z) :
  (forall (minScore maxScore offset count : int64) (desc : bool),
      reply c (range_command desc (z_queue.Key q)
                 (range_opt minScore maxScore offset count)) s = (zs, Some e) ->
      outcome (run c (call (z_queue.rangeByScoreInternal (T := T)
                              minScore maxScore offset count desc) q) s)
      = Returned (([], Some e), q))
  /\ (reply c (ZPopMin (z_queue.Key q) 1) s = (zs, Some e) ->
      outcome (run c (call (z_queue.PopMin (T := T)) q) s) = Returned ((None, Some e), q))
  /\ (reply c (ZPopMax (z_queue.Key q) 1) s = (zs, Some e) ->
      outcome (run c (call (z_queue.PopMax (T := T)) q) s) = Returned ((None, Some e), q))
  /\ (forall count : int64,
      reply c (ZPopMin (z_queue.Key q) count) s = (zs, Some e) ->
      outcome (run c (call (z_queue.PopMinMulti (T := T) count) q) s)
      = Returned (([], Some e), q))
  /\ (forall count : int64,
      reply c (ZPopMax (z_queue.Key q) count) s = (zs, Some e) ->
      outcome (run c (call (z_queue.PopMaxMulti (T := T) count) q) s)
      = Returned (([], Some e), q)).
Proof.
  split; [| split; [| split; [| split]]].
  - intros minScore maxScore offset count desc Hr.
    rewrite (rangeByScoreInternal_runs c s q minScore maxScore offset count desc), Hr.
    reflexivity.
  - intros Hr. rewrite (PopMin_runs c s q), Hr. reflexivity.
  - intros Hr. rewrite (PopMax_runs c s q), Hr. reflexivity.
  - intros count Hr. rewrite (PopMinMulti_runs c s q count), Hr. reflexivity.
  - intros count Hr. rewrite (PopMaxMulti_runs c s q count), Hr. reflexivity.
Qed.

Lemma ZQueue_reads_pass_errors_witness :
  let q := {| z_queue.Key := "k"; z_queue.Desc := true |} in
  let s1 := final (run store.client
                     (call (hash_map.Set_ "f" "v" 0) (hash_map.NewHashMap "k"))
                     store.empty) in
  outcome (run store.client (call (z_queue.RangeByScore (T := string) 1 5) q) s1)
  = Returned (([], Some store.WRONGTYPE), q)
  /\ outcome (run store.client (call (z_queue.PopMaxMulti (T := string) 3) q) s1)
     = Returned (([], Some store.WRONGTYPE), q).
Proof.
  cbv zeta.
  set (q := {| z_queue.Key := "k"; z_queue.Desc := true |}).
  set (s1 := final (run store.client (call (hash_map.Set_ "f" "v" 0) _) store.empty)).
  destruct (ZQueue_reads_pass_errors store.client s1 (T := string) q store.WRONGTYPE [])
    as (HRange & _ & _ & _ & HPopMax).
  split.
  - exact (HRange 1 5 0 (-1) true eq_refl).
  - exact (HPopMax 3 eq_refl).
Defined.


(** ** What the reading calls return *)

Section Decoded.
Context {K V : Type} `{Countable K} {TK : Typex K} {TV : Typex V}.

Lemma decode_loop_decodes {T : Type} {TT : Typex T} (strs : list string) :
  forall result : list T,
  Forall (fun str => (ToAnyE (T := T) str).2 = None) strs ->
  hash_map.decode_loop strs result
  = (result ++ map (fun str => (ToAnyE (T := T) str).1) strs, None).
Proof.
  induction strs as [| str strs IH]; intros result Hok.
  - cbn [hash_map.decode_loop map]. rewrite app_nil_r. reflexivity.
  - apply Forall_cons in Hok as [Hstr Hok]. cbn [hash_map.decode_loop map].
    destruct (ToAnyE (T := T) str) as [x err]. cbn [fst snd] in *. subst err.
    rewrite (IH _ Hok), <- app_assoc. reflexivity.
Qed.

(** The entries of a map built by inserting a list front to back. *)
Lemma foldl_insert_absent (l : list (K * V)) : forall (acc : gmap K V) (k : K),
  k ∉ l.*1 -> foldl (fun m kv => <[kv.1 := kv.2]> m) acc l !! k = acc !! k.
Proof.
  induction l as [| [k' v'] l IH]; intros acc k Hk; [reflexivity |].
  cbn [foldl fst snd]. cbn [fmap list_fmap fst] in Hk.
  apply not_elem_of_cons in Hk as [Hne Hk].
  rewrite (IH _ _ Hk). apply lookup_insert_ne. congruence.
Qed.

Lemma foldl_insert_lookup (l : list (K * V)) : forall (k : K) (v : V),
  NoDup l.*1 ->
  foldl (fun m kv => <[kv.1 := kv.2]> m) (∅ : gmap K V) l !! k = Some v <-> (k, v) ∈ l.
Proof.
  intros k v Hnd.
  assert (Hgen : forall acc : gmap K V,
             foldl (fun m kv => <[kv.1 := kv.2]> m) acc l !! k = Some v
             <-> ((k, v) ∈ l \/ ((k ∉ l.*1) /\ acc !! k = Some v))).
  { induction l as [| [k' v'] l IH]; intros acc.
    - cbn [foldl]. split.
      + intros Hacc. right. split; [apply not_elem_of_nil | exact Hacc].
      + intros [Hin | [_ Hacc]]; [inversion Hin | exact Hacc].
    - cbn [fmap list_fmap fst] in Hnd. apply NoDup_cons in Hnd as [Hk' Hnd].
      cbn [foldl fst snd]. rewrite (IH Hnd). split.
      + intros [Hin | [Hk Hacc]].
        * left. right. exact Hin.
        * destruct (decide (k = k')) as [-> | Hne].
          -- rewrite lookup_insert_eq in Hacc. injection Hacc as ->. left. left.
          -- rewrite lookup_insert_ne in Hacc by congruence.
             right. split; [| exact Hacc].
             cbn [fmap list_fmap fst]. apply not_elem_of_cons. split; assumption.
      + intros [Hin | [Hk Hacc]].
        * apply elem_of_cons in Hin as [[= -> ->] | Hin].
          -- right. split; [exact Hk' |]. apply lookup_insert_eq.
          -- left. exact Hin.
        * cbn [fmap list_fmap fst] in Hk. apply not_elem_of_cons in Hk as [Hne Hk].
          right. split; [exact Hk |]. rewrite lookup_insert_ne by congruence. exact Hacc. }
  rewrite Hgen. split.
  - intros [Hin | [_ Habs]]; [exact Hin | rewrite lookup_empty in Habs; discriminate].
  - intros Hin. left. exact Hin.
Qed.

Lemma GetAll_loop_decodes (vals : list (string * string)) :
  forall result : gmap K V,
  Forall (fun kv => (ToAnyE (T := K) kv.1).2 = None /\ (ToAnyE (T := V) kv.2).2 = None)
         vals ->
  hash_map.GetAll_loop vals result
  = (foldl (fun m kv => <[kv.1 := kv.2]> m) result
       (map (fun kv => ((ToAnyE (T := K) kv.1).1, (ToAnyE (T := V) kv.2).1)) vals),
     None).
Proof.
  induction vals as [| [k v] vals IH]; intros result Hok; [reflexivity |].
  apply Forall_cons in Hok as [[Hk Hv] Hok]. cbn [fst snd] in Hk, Hv.
  cbn [hash_map.GetAll_loop map foldl fst snd].
  destruct (ToAnyE (T := K) k) as [key errk]. destruct (ToAnyE (T := V) v) as [val errv].
  cbn [fst snd] in *. subst errk errv. apply IH, Hok.
Qed.

(** The loop of [GetMulti], when every value that is present decodes and
    there are fields enough: it inserts, field by field. *)
Lemma GetMulti_loop_decodes (h : hash_map.HashMap) (fields : list K)
    (vals : list (option string)) :
  forall (i : nat) (result : gmap K V),
  (i + length vals <= length fields)%nat ->
  Forall (fun o => forall str, o = Some str -> (ToAnyE (T := V) str).2 = None) vals ->
  call (hash_map.GetMulti_loop fields i vals result) h
  = Ret ((foldl (fun m fo => match fo.2 with
                             | Some str => <[fo.1 := (ToAnyE (T := V) str).1]> m
                             | None => m
                             end)
                result (zip (drop i fields) vals), None), h).
Proof.
  induction vals as [| o vals IH]; intros i result Hlen Hok.
  - cbn [hash_map.GetMulti_loop]. rewrite zip_with_nil_r. reflexivity.
  - cbn [length] in Hlen. apply Forall_cons in Hok as [Ho Hok].
    destruct (lookup_lt_is_Some_2 fields i ltac:(lia)) as [f Hf].
    rewrite (drop_S _ _ _ Hf). cbn [zip_with foldl fst snd].
    destruct o as [str |]; cbn [hash_map.GetMulti_loop].
    + specialize (Ho str eq_refl).
      destruct (ToAnyE (T := V) str) as [v err]. cbn [fst snd] in *. subst err.
      rewrite Hf. apply IH; [lia | exact Hok].
    + apply IH; [lia | exact Hok].
Qed.

Lemma foldl_present_absent (l : list (K * option string)) :
  forall (acc : gmap K V) (k : K),
  k ∉ l.*1 ->
  foldl (fun m fo => match fo.2 with
                     | Some str => <[fo.1 := (ToAnyE (T := V) str).1]> m
                     | None => m
                     end) acc l !! k = acc !! k.
Proof.
  induction l as [| [f o] l IH]; intros acc k Hk; [reflexivity |].
  cbn [fmap list_fmap fst] in Hk. apply not_elem_of_cons in Hk as [Hne Hk].
  cbn [foldl fst snd]. rewrite (IH _ _ Hk).
  destruct o; [apply lookup_insert_ne; congruence | reflexivity].
Qed.

Lemma foldl_present_lookup (l : list (K * option string)) :
  forall (acc : gmap K V) (f : K) (o : option string),
  NoDup l.*1 -> (f, o) ∈ l ->
  foldl (fun m fo => match fo.2 with
                     | Some str => <[fo.1 := (ToAnyE (T := V) str).1]> m
                     | None => m
                     end) acc l !! f
  = match o with
    | Some str => Some (ToAnyE (T := V) str).1
    | None => acc !! f
    end.
Proof.
  induction l as [| [f' o'] l IH]; intros acc f o Hnd Hin; [inversion Hin |].
  cbn [fmap list_fmap fst] in Hnd. apply NoDup_cons in Hnd as [Hf' Hnd].
  cbn [foldl fst snd]. apply elem_of_cons in Hin as [[= -> ->] | Hin].
  - rewrite (foldl_present_absent l _ f' Hf').
    destruct o'; [apply lookup_insert_eq | reflexivity].
  - rewrite (IH _ f o Hnd Hin). destruct o as [str |]; [reflexivity |].
    destruct o'; [| reflexivity].
    apply lookup_insert_ne. intros ->. apply Hf'.
    apply (list_elem_of_fmap_2 fst _ _ Hin).
Qed.

End Decoded.

(** X5: given one answer per requested field, no field requested twice and
    every present value decoding, [GetMulti] returns without error the
    map that holds, for each requested field, the decoded value when one
    is present and nothing when it is absent, and that holds no other
    key. *)
Theorem GetMulti_returns_present {St : Type} (c : Client St) (s : St)
    {K V : Type} `{Countable K} {TK : Typex K} {TV : Typex V}
    (h : hash_map.HashMap) (fields : list K) (vals : list (option string)) :
  fields ≠ [] ->
  NoDup fields ->
  reply c (HMGet (hash_map.Key h) (map ToString fields)) s = (vals, None) ->
  length vals = length fields ->
  Forall (fun o => forall str, o = Some str -> (ToAnyE (T := V) str).2 = None) vals ->
  exists m : gmap K V,
    outcome (run c (call (hash_map.GetMulti (V := V) fields) h) s) = Returned ((m, None), h)
    /\ (forall (i : nat) (f : K) (o : option string),
        fields !! i = Some f -> vals !! i = Some o ->
        m !! f = (fun str => (ToAnyE (T := V) str).1) <$> o)
    /\ (forall k : K, k ∉ fields -> m !! k = None).
Proof.
  intros Hne Hnd Hr Hlen Hok.
  eexists. split; [| split].
  - unfold hash_map.GetMulti. destruct fields as [| f fields]; [contradiction |].
    cbn [length Nat.eqb mbind Method_bind call recv Cli Prog_bind fst snd].
    rewrite run_Vis. cbn [outcome]. rewrite Hr. cbn [Prog_bind fst snd call].
    rewrite (GetMulti_loop_decodes h (f :: fields) vals 0 ∅ ltac:(lia) Hok).
    reflexivity.
  - intros i f o Hf Ho. rewrite drop_0.
    assert (Hin : (f, o) ∈ zip fields vals).
    { apply list_elem_of_lookup. exists i. apply lookup_zip_with_Some. eauto. }
    rewrite (foldl_present_lookup _ ∅ f o); [| rewrite fst_zip by lia; exact Hnd | exact Hin].
    destruct o; [reflexivity | apply lookup_empty].
  - intros k Hk. rewrite drop_0.
    rewrite foldl_present_absent; [apply lookup_empty |].
    rewrite fst_zip by lia. exact Hk.
Qed.

Lemma GetMulti_returns_present_witness :
  let h := hash_map.NewHashMap "h" in
  let s1 := final (run store.client
                     (call (hash_map.SetMulti ({[ "a" := 1; "b" := 2 ]} : gmap string int64) 0) h)
                     store.empty) in
  exists m : gmap string int64,
    outcome (run store.client (call (hash_map.GetMulti ["a"; "x"; "b"]) h) s1)
    = Returned ((m, None), h)
    /\ m !! "a" = Some 1 /\ m !! "x" = None /\ m !! "b" = Some 2 /\ m !! "c" = None.
Proof.
  cbv zeta.
  set (h := hash_map.NewHashMap "h").
  set (s1 := final (run store.client (call (hash_map.SetMulti _ 0) h) store.empty)).
  destruct (GetMulti_returns_present store.client s1 (K := string) (V := int64) h
              ["a"; "x"; "b"] [Some "1"; None; Some "2"])
    as (m & Hm & Hat & Hout).
  - discriminate.
  - apply (bool_decide_unpack _). vm_compute. exact I.
  - vm_compute. reflexivity.
  - reflexivity.
  - repeat constructor; intros str [= <-]; reflexivity.
  - exists m. split; [exact Hm |].
    split; [exact (Hat 0%nat "a" (Some "1") eq_refl eq_refl) |].
    split; [exact (Hat 1%nat "x" None eq_refl eq_refl) |].
    split; [exact (Hat 2%nat "b" (Some "2") eq_refl eq_refl) |].
    apply Hout. apply (bool_decide_unpack _). vm_compute. exact I.
Defined.

(** X6: when every entry of the answer decodes and no two field names
    decode to the same key, [GetAll] returns without error the map whose
    entries are exactly the decoded entries of the answer. *)
Theorem GetAll_returns_entries {St : Type} (c : Client St) (s : St)
    {K V : Type} `{Countable K} {TK : Typex K} {TV : Typex V}
    (h : hash_map.HashMap) (vals : list (string * string)) :
  reply c (HGetAll (hash_map.Key h)) s = (vals, None) ->
  Forall (fun kv => (ToAnyE (T := K) kv.1).2 = None /\ (ToAnyE (T := V) kv.2).2 = None)
         vals ->
  NoDup (map (fun kv => (ToAnyE (T := K) kv.1).1) vals) ->
  exists m : gmap K V,
    outcome (run c (call (hash_map.GetAll (K := K) (V := V)) h) s) = Returned ((m, None), h)
    /\ (forall (k : K) (v : V),
        m !! k = Some v
        <-> exists kv, kv ∈ vals /\ (ToAnyE (T := K) kv.1).1 = k
                       /\ (ToAnyE (T := V) kv.2).1 = v).
Proof.
  intros Hr Hok Hnd.
  eexists. split.
  - rewrite (GetAll_runs (K := K) (V := V) c s h), Hr. cbn [outcome fst snd].
    rewrite (GetAll_loop_decodes vals ∅ Hok). reflexivity.
  - intros k v. rewrite foldl_insert_lookup.
    + rewrite list_elem_of_fmap. split.
      * intros (kv & [= -> ->] & Hin). exists kv. auto.
      * intros (kv & Hin & <- & <-). exists kv. auto.
    + rewrite <- list_fmap_compose. exact Hnd.
Qed.

Lemma GetAll_returns_entries_witness :
  let h := hash_map.NewHashMap "h" in
  let s1 := final (run store.client
                     (call (hash_map.Set_ (7 : int64) true 0) h) store.empty) in
  exists m : gmap int64 bool,
    outcome (run store.client (call (hash_map.GetAll (K := int64) (V := bool)) h) s1)
    = Returned ((m, None), h)
    /\ m !! 7 = Some true.
Proof.
  cbv zeta.
  set (h := hash_map.NewHashMap "h").
  set (s1 := final (run store.client (call (hash_map.Set_ _ _ 0) h) store.empty)).
  destruct (GetAll_returns_entries store.client s1 (K := int64) (V := bool) h [("7", "true")])
    as (m & Hm & Hentries).
  - vm_compute. reflexivity.
  - repeat constructor.
  - apply (bool_decide_unpack _). vm_compute. exact I.
  - exists m. split; [exact Hm |].
    apply Hentries. exists ("7", "true"). split; [left | split; reflexivity].
Defined.

(** X7: when every text of the answer decodes, [Keys] and [Values] return
    without error the decoded texts, one per text of the answer and in the
    answer's order. *)
Theorem Keys_Values_return_decoded {St : Type} (c : Client St) (s : St)
    {K V : Type} {TK : Typex K} {TV : Typex V}
    (h : hash_map.HashMap) (keys vals : list string) :
  reply c (HKeys (hash_map.Key h)) s = (keys, None) ->
  reply c (HVals (hash_map.Key h)) s = (vals, None) ->
  Forall (fun str => (ToAnyE (T := K) str).2 = None) keys ->
  Forall (fun str => (ToAnyE (T := V) str).2 = None) vals ->
  outcome (run c (call (hash_map.Keys (K := K)) h) s)
  = Returned ((map (fun str => (ToAnyE (T := K) str).1) keys, None), h)
  /\ outcome (run c (call (hash_map.Values (V := V)) h) s)
     = Returned ((map (fun str => (ToAnyE (T := V) str).1) vals, None), h).
Proof.
  intros Hk Hv Hkeys Hvals. split.
  - rewrite (Keys_runs (K := K) c s h), Hk. cbn [outcome fst snd].
    rewrite (decode_loop_decodes keys [] Hkeys). reflexivity.
  - rewrite (Values_runs (V := V) c s h), Hv. cbn [outcome fst snd].
    rewrite (decode_loop_decodes vals [] Hvals). reflexivity.
Qed.

Lemma Keys_Values_return_decoded_witness :
  let h := hash_map.NewHashMap "h" in
  let s1 := final (run store.client
                     (call (hash_map.Set_ (7 : int64) true 0) h) store.empty) in
  outcome (run store.client (call (hash_map.Keys (K := int64)) h) s1)
  = Returned (([7], None), h)
  /\ outcome (run store.client (call (hash_map.Values (V := bool)) h) s1)
     = Returned (([true], None), h).
Proof.
  cbv zeta.
  set (h := hash_map.NewHashMap "h").
  set (s1 := final (run store.client (call (hash_map.Set_ _ _ 0) h) store.empty)).
  assert (Hk : reply store.client (HKeys (hash_map.Key h)) s1 = (["7"], None))
    by (vm_compute; reflexivity).
  assert (Hv : reply store.client (HVals (hash_map.Key h)) s1 = (["true"], None))
    by (vm_compute; reflexivity).
  assert (Hkeys : Forall (fun str => (ToAnyE (T := int64) str).2 = None) ["7"])
    by (repeat constructor).
  assert (Hvals : Forall (fun str => (ToAnyE (T := bool) str).2 = None) ["true"])
    by (repeat constructor).
  exact (Keys_Values_return_decoded store.client s1 (K := int64) (V := bool) h
           ["7"] ["true"] Hk Hv Hkeys Hvals).
Defined.


(** ** Hashes on the reference store *)

Lemma foldl_insert_nonempty (pairs : list (string * string)) (hmap : gmap string string) :
  pairs ≠ [] -> foldl (fun m fv => <[fv.1 := fv.2]> m) hmap pairs ≠ ∅.
Proof.
  destruct pairs as [| p pairs _] using rev_ind; [contradiction |].
  intros _. rewrite foldl_app. cbn [foldl]. apply insert_non_empty.
Qed.

Lemma store_put_hash_nonempty (st : store.Store) (key : string) (hmap : gmap string string) :
  hmap ≠ ∅ ->
  store.put_hash st key hmap
  = {| store.data := <[key := store.Hash hmap]> (store.data st);
       store.expiry := store.expiry st |}.
Proof.
  intros Hne. unfold store.put_hash.
  destruct (size hmap =? 0)%nat eqn:E; [| reflexivity].
  apply Nat.eqb_eq, map_size_empty_iff in E. contradiction.
Qed.

(** What the expiry refresh behind a write does to a key that exists. *)
Lemma store_queue_Expire (st : store.Store) (key : string) (expire : Duration) (v : store.Value) :
  store.data st !! key = Some v ->
  store.first_error (store.exec_cmds (queue_Expire key expire) st).1 = None
  /\ store.data (store.exec_cmds (queue_Expire key expire) st).2 = store.data st
  /\ store.expiry (store.exec_cmds (queue_Expire key expire) st).2
     = (if 0 <? expire then <[key := expire]> (store.expiry st) else store.expiry st).
Proof.
  intros Hv. unfold queue_Expire. destruct (0 <? expire) eqn:Hexp.
  - cbn [store.exec_cmds store.exec_cmd]. rewrite Hv.
    destruct (expire <=? 0) eqn:Hle; [apply Z.leb_le in Hle; apply Z.ltb_lt in Hexp; lia |].
    cbn. auto.
  - cbn. auto.
Qed.

(** HSET of at least one pair, with or without the expiry refresh. *)
Lemma store_HSet (st : store.Store) (key : string) (pairs : list (string * string))
    (expire : Duration) (hmap : gmap string string) :
  store.get_hash st key = inl hmap -> pairs ≠ [] ->
  (reply store.client (Pipeline_Exec (P_HSet key pairs :: queue_Expire key expire)) st).2 = None
  /\ store.get_hash
       (next store.client (Pipeline_Exec (P_HSet key pairs :: queue_Expire key expire)) st) key
     = inl (foldl (fun m fv => <[fv.1 := fv.2]> m) hmap pairs)
  /\ store.expiry
       (next store.client (Pipeline_Exec (P_HSet key pairs :: queue_Expire key expire)) st)
     = (if 0 <? expire then <[key := expire]> (store.expiry st) else store.expiry st).
Proof.
  intros Hh Hne. unfold reply, next.
  cbn [store.client store.exec_cmds store.exec_cmd].
  destruct pairs as [| p pairs]; [contradiction |]. rewrite Hh.
  set (hmap' := foldl _ hmap (p :: pairs)).
  rewrite (store_put_hash_nonempty st key hmap')
    by (apply foldl_insert_nonempty; discriminate).
  set (st' := {| store.data := _; store.expiry := _ |}).
  destruct (store_queue_Expire st' key expire (store.Hash hmap'))
    as (Herr & Hdata & Hexp); [apply lookup_insert_eq |].
  destruct (store.exec_cmds (queue_Expire key expire) st') as [rs st''].
  cbn [fst snd] in *. cbn [store.first_error p_err store.done_int].
  split; [exact Herr |]. split; [| exact Hexp].
  unfold store.get_hash. rewrite Hdata. unfold st'. cbn [store.data].
  rewrite lookup_insert_eq. reflexivity.
Qed.

Lemma store_HGet_present (st : store.Store) (key field val : string)
    (hmap : gmap string string) :
  store.get_hash st key = inl hmap -> hmap !! field = Some val ->
  reply store.client (HGet key field) st = (val, None).
Proof. intros Hh Hf. unfold reply. cbn [store.client]. rewrite Hh, Hf. reflexivity. Qed.

(** X8: on the reference store, for a key that holds a hash or nothing and
    a value the codec reads back, [Set] succeeds and a [Get] of the same
    field right after it returns the value that was set, with no error. *)
Theorem Set_then_Get {K V : Type} {TK : Typex K} {TV : Typex V}
    (st : store.Store) (h : hash_map.HashMap) (hmap : gmap string string)
    (field : K) (value : V) (expire : Duration) :
  store.get_hash st (hash_map.Key h) = inl hmap ->
  ToAnyE (ToString value) = (value, None) ->
  outcome (run store.client (call (hash_map.Set_ field value expire) h) st)
  = Returned (None, h)
  /\ outcome (run store.client (call (hash_map.Get (V := V) field) h)
                (final (run store.client (call (hash_map.Set_ field value expire) h) st)))
     = Returned ((value, None), h)
  /\ outcome (run store.client (call (hash_map.Exists field) h)
                (final (run store.client (call (hash_map.Set_ field value expire) h) st)))
     = Returned ((true, None), h).
Proof.
  intros Hh Hcodec.
  destruct (store_HSet st (hash_map.Key h) [(ToString field, ToString value)] expire hmap Hh)
    as (Herr & Hnext & _); [discriminate |].
  cbn [foldl fst snd] in Hnext.
  rewrite (Set_runs store.client st h field value expire). cbn [outcome final].
  rewrite Herr. split; [reflexivity |]. split.
  - rewrite (Get_runs (V := V) store.client _ h field). cbn [outcome].
    rewrite (store_HGet_present _ _ _ (ToString value) _ Hnext) by apply lookup_insert_eq.
    cbn [fst snd]. rewrite Hcodec. reflexivity.
  - rewrite (Exists_runs store.client _ h field). cbn [outcome].
    unfold reply at 1. cbn [store.client]. rewrite Hnext, lookup_insert_eq. reflexivity.
Qed.

Lemma Set_then_Get_witness :
  let h := hash_map.NewHashMap "h" in
  outcome (run store.client (call (hash_map.Get (K := string) (V := int64) "f") h)
             (final (run store.client (call (hash_map.Set_ "f" (-42 : int64) 60) h)
                       store.empty)))
  = Returned ((-42, None), h).
Proof.
  cbv zeta.
  exact (proj1 (proj2 (Set_then_Get (K := string) (V := int64) store.empty
                         (hash_map.NewHashMap "h") ∅ "f" (-42) 60 eq_refl eq_refl))).
Defined.


Lemma foldl_delete_lookup (fields : list string) :
  forall (hmap : gmap string string) (k : string),
  foldl (fun m f => delete f m) hmap fields !! k
  = if bool_decide (k ∈ fields) then None else hmap !! k.
Proof.
  induction fields as [| f fields IH]; intros hmap k; [reflexivity |].
  cbn [foldl]. rewrite IH.
  destruct (decide (k = f)) as [-> | Hne].
  - rewrite lookup_delete_eq, (bool_decide_eq_true_2 (f ∈ f :: fields)) by left.
    destruct (bool_decide (f ∈ fields)); reflexivity.
  - rewrite lookup_delete_ne by congruence.
    destruct (decide (k ∈ fields)) as [Hin | Hout].
    + rewrite !bool_decide_eq_true_2; [reflexivity | right; exact Hin | exact Hin].
    + rewrite !bool_decide_eq_false_2; [reflexivity | | exact Hout].
      intros Hin. apply elem_of_cons in Hin as [-> | Hin]; contradiction.
Qed.

Lemma store_get_put_hash (st : store.Store) (key : string) (hmap : gmap string string) :
  store.get_hash (store.put_hash st key hmap) key = inl hmap.
Proof.
  unfold store.put_hash, store.get_hash.
  destruct (size hmap =? 0)%nat eqn:E; cbn [store.data store.remove_key].
  - apply Nat.eqb_eq, map_size_empty_iff in E. subst hmap.
    rewrite lookup_delete_eq. reflexivity.
  - rewrite lookup_insert_eq. reflexivity.
Qed.

(** X9: on the reference store, for a key that holds a hash or nothing,
    [Delete] of one or more fields returns no error whether or not the
    fields exist; afterwards [Get] of a deleted field returns the zero
    value with no error and [Exists] returns false, and a field that was
    not named reads as before. *)
Theorem Delete_then_Get {K V : Type} {TK : Typex K} {TV : Typex V}
    (st : store.Store) (h : hash_map.HashMap) (hmap : gmap string string)
    (fields : list K) :
  store.get_hash st (hash_map.Key h) = inl hmap ->
  fields ≠ [] ->
  let st' := final (run store.client (call (hash_map.Delete fields) h) st) in
  outcome (run store.client (call (hash_map.Delete fields) h) st) = Returned (None, h)
  /\ (forall field : K, field ∈ fields ->
      outcome (run store.client (call (hash_map.Get (V := V) field) h) st')
      = Returned ((zero, None), h)
      /\ outcome (run store.client (call (hash_map.Exists field) h) st')
         = Returned ((false, None), h))
  /\ (forall field : K, ToString field ∉ map ToString fields ->
      outcome (run store.client (call (hash_map.Get (V := V) field) h) st')
      = outcome (run store.client (call (hash_map.Get (V := V) field) h) st)).
Proof.
  intros Hh Hne. cbv zeta.
  pose proof (Delete_runs store.client st h fields Hne) as Hrun.
  unfold runs_command in Hrun. rewrite Hrun. cbn [outcome final].
  assert (Hreply : reply store.client (HDel (hash_map.Key h) (map ToString fields)) st = None).
  { unfold reply. cbn [store.client]. rewrite Hh.
    destruct fields; [contradiction | reflexivity]. }
  assert (Hnext : store.get_hash
                    (next store.client (HDel (hash_map.Key h) (map ToString fields)) st)
                    (hash_map.Key h)
                  = inl (foldl (fun m f => delete f m) hmap (map ToString fields))).
  { unfold next. cbn [store.client]. rewrite Hh.
    destruct fields; [contradiction |]. cbn [map snd]. apply store_get_put_hash. }
  rewrite Hreply. split; [reflexivity |]. split.
  - intros field Hin.
    assert (Hgone : foldl (fun m f => delete f m) hmap (map ToString fields)
                      !! ToString field = None).
    { rewrite foldl_delete_lookup, bool_decide_eq_true_2; [reflexivity |].
      apply list_elem_of_fmap_2. exact Hin. }
    split.
    + rewrite (Get_runs (V := V) store.client _ h field). cbn [outcome].
      rewrite (store_HGet_absent _ _ _ _ Hnext Hgone). reflexivity.
    + rewrite (Exists_runs store.client _ h field). cbn [outcome].
      unfold reply at 1. cbn [store.client]. rewrite Hnext, Hgone. reflexivity.
  - intros field Hout.
    rewrite !(Get_runs (V := V) store.client _ h field). cbn [outcome].
    assert (Hsame : reply store.client (HGet (hash_map.Key h) (ToString field))
                      (next store.client (HDel (hash_map.Key h) (map ToString fields)) st)
                    = reply store.client (HGet (hash_map.Key h) (ToString field)) st).
    { unfold reply. cbn [store.client]. rewrite Hnext, Hh.
      rewrite foldl_delete_lookup, bool_decide_eq_false_2 by exact Hout.
      destruct (hmap !! ToString field); reflexivity. }
    rewrite Hsame. reflexivity.
Qed.

Lemma Delete_then_Get_witness :
  let h := hash_map.NewHashMap "h" in
  let s1 := final (run store.client (call (hash_map.Set_ "f" (5 : int64) 0) h) store.empty) in
  outcome (run store.client (call (hash_map.Delete ["f"; "g"]) h) s1) = Returned (None, h)
  /\ outcome (run store.client (call (hash_map.Get (V := int64) "f") h)
                (final (run store.client (call (hash_map.Delete ["f"; "g"]) h) s1)))
     = Returned ((0, None), h).
Proof.
  cbv zeta.
  set (h := hash_map.NewHashMap "h").
  set (s1 := final (run store.client (call (hash_map.Set_ _ _ 0) h) store.empty)).
  destruct (Delete_then_Get (K := string) (V := int64) s1 h {[ "f" := "5" ]} ["f"; "g"])
    as (Hdel & Hget & _).
  - vm_compute. reflexivity.
  - discriminate.
  - split; [exact Hdel |]. apply (Hget "f"). left.
Defined.

(** The pairs [SetMulti] writes, when the field codec is injective. *)
Lemma encode_fields_lookup {K V : Type} `{Countable K} {TK : Typex K} {TV : Typex V}
    (fields : gmap K V) :
  Inj (=) (=) (ToString (T := K)) ->
  forall k : K, hash_map.encode_fields fields !! ToString k = ToString <$> fields !! k.
Proof.
  intros Hinj. unfold hash_map.encode_fields.
  apply (map_fold_weak_ind
           (fun (values : gmap string string) (m : gmap K V) =>
              forall k : K, values !! ToString k = ToString <$> m !! k)).
  - intros k. rewrite !lookup_empty. reflexivity.
  - intros i x m values _ IH k.
    destruct (decide (i = k)) as [-> | Hne].
    + rewrite !lookup_insert_eq. reflexivity.
    + rewrite !lookup_insert_ne; [apply IH | exact Hne |].
      intros E. apply Hne, Hinj, E.
Qed.

Lemma foldl_insert_map_to_list (values hmap : gmap string string) (k : string) :
  foldl (fun m fv => <[fv.1 := fv.2]> m) hmap (map_to_list values) !! k
  = match values !! k with
    | Some v => Some v
    | None => hmap !! k
    end.
Proof.
  destruct (values !! k) as [v |] eqn:E.
  - assert (Hgen : forall (l : list (string * string)) (acc : gmap string string),
               NoDup l.*1 -> (k, v) ∈ l ->
               foldl (fun m fv => <[fv.1 := fv.2]> m) acc l !! k = Some v).
    { induction l as [| [k' v'] l IH]; intros acc Hnd Hin; [inversion Hin |].
      cbn [fmap list_fmap fst] in Hnd. apply NoDup_cons in Hnd as [Hk' Hnd].
      cbn [foldl fst snd]. apply elem_of_cons in Hin as [[= -> ->] | Hin].
      - rewrite foldl_insert_absent by exact Hk'. apply lookup_insert_eq.
      - apply IH; assumption. }
    apply Hgen; [apply NoDup_fst_map_to_list | apply elem_of_map_to_list, E].
  - apply foldl_insert_absent. intros Hin.
    apply list_elem_of_fmap in Hin as ([k' v'] & -> & Hin).
    apply elem_of_map_to_list in Hin. cbn [fst] in E. congruence.
Qed.

(** X10: on the reference store, for a key that holds a hash or nothing
    and a field codec that gives different fields different texts,
    [SetMulti] of a non-empty map succeeds, and afterwards [Get] of any
    field of the map whose value the codec reads back returns that
    value. *)
Theorem SetMulti_then_Get {K V : Type} `{Countable K} {TK : Typex K} {TV : Typex V}
    (st : store.Store) (h : hash_map.HashMap) (hmap : gmap string string)
    (fields : gmap K V) (expire : Duration) :
  store.get_hash st (hash_map.Key h) = inl hmap ->
  Inj (=) (=) (ToString (T := K)) ->
  fields ≠ ∅ ->
  outcome (run store.client (call (hash_map.SetMulti fields expire) h) st)
  = Returned (None, h)
  /\ (forall (field : K) (value : V),
      fields !! field = Some value ->
      ToAnyE (ToString value) = (value, None) ->
      outcome (run store.client (call (hash_map.Get (V := V) field) h)
                 (final (run store.client (call (hash_map.SetMulti fields expire) h) st)))
      = Returned ((value, None), h)).
Proof.
  intros Hh Hinj Hne.
  assert (Hpairs : map_to_list (hash_map.encode_fields fields) ≠ []).
  { intros E. apply map_to_list_empty_iff in E.
    destruct (map_choose fields Hne) as (k & v & Hk).
    pose proof (encode_fields_lookup fields Hinj k) as Hl.
    rewrite E, Hk, lookup_empty in Hl. discriminate. }
  destruct (store_HSet st (hash_map.Key h) _ expire hmap Hh Hpairs) as (Herr & Hnext & _).
  pose proof (SetMulti_runs store.client st h fields expire Hne) as Hrun.
  unfold runs_batch in Hrun. rewrite Hrun. cbn [outcome final].
  rewrite Herr. split; [reflexivity |].
  intros field value Hf Hcodec.
  rewrite (Get_runs (V := V) store.client _ h field). cbn [outcome].
  rewrite (store_HGet_present _ _ _ (ToString value) _ Hnext).
  - cbn [fst snd]. rewrite Hcodec. reflexivity.
  - rewrite foldl_insert_map_to_list, (encode_fields_lookup fields Hinj), Hf. reflexivity.
Qed.

Lemma SetMulti_then_Get_witness :
  let h := hash_map.NewHashMap "h" in
  outcome (run store.client (call (hash_map.Get (K := int64) (V := bool) 2) h)
             (final (run store.client
                       (call (hash_map.SetMulti ({[ 1 := false; 2 := true ]} : gmap int64 bool) 0)
                             h)
                       store.empty)))
  = Returned ((true, None), h).
Proof.
  cbv zeta.
  refine (proj2 (SetMulti_then_Get (K := int64) (V := bool) store.empty
                   (hash_map.NewHashMap "h") ∅ {[ 1 := false; 2 := true ]} 0
                   eq_refl _ _) 2 true _ eq_refl).
  - intros a b E. exact (format_int_inj a b E).
  - intros E. apply (f_equal (fun m : gmap int64 bool => m !! 1)) in E.
    vm_compute in E. discriminate.
  - vm_compute. reflexivity.
Defined.


Lemma foldl_z_add_nonempty (members zs : list redis_Z) :
  members ≠ [] -> foldl (fun l z => store.z_add z l) zs members ≠ [].
Proof.
  destruct members as [| z members _] using rev_ind; [contradiction |].
  intros _. rewrite foldl_app. cbn [foldl]. unfold store.z_add.
  destruct (z_insert_cons z (store.z_remove (Z_Member z)
                               (foldl (fun l z0 => store.z_insert z0
                                         (store.z_remove (Z_Member z0) l)) zs members)))
    as (y & l' & E).
  unfold store.z_add in *. rewrite E. discriminate.
Qed.

(** ZADD of at least one member, none of them NaN, with or without the
    expiry refresh. *)
Lemma store_ZAdd (st : store.Store) (key : string) (members : list redis_Z)
    (expire : Duration) (zs : list redis_Z) :
  store.get_zset st key = inl zs -> members ≠ [] ->
  existsb (fun z => store.is_nan (Z_Score z)) members = false ->
  (reply store.client (Pipeline_Exec (P_ZAdd key members :: queue_Expire key expire)) st).2
  = None
  /\ store.get_zset
       (next store.client (Pipeline_Exec (P_ZAdd key members :: queue_Expire key expire)) st)
       key
     = inl (foldl (fun l z => store.z_add z l) zs members)
  /\ store.expiry
       (next store.client (Pipeline_Exec (P_ZAdd key members :: queue_Expire key expire)) st)
     = (if 0 <? expire then <[key := expire]> (store.expiry st) else store.expiry st).
Proof.
  intros Hz Hne Hnan. unfold reply, next.
  cbn [store.client store.exec_cmds store.exec_cmd].
  destruct members as [| z members]; [contradiction |]. rewrite Hz, Hnan.
  set (zs' := foldl _ zs (z :: members)).
  assert (Hzs' : zs' ≠ []) by (apply foldl_z_add_nonempty; discriminate).
  assert (Hput : store.put_zset st key zs'
                 = {| store.data := <[key := store.ZSet zs']> (store.data st);
                      store.expiry := store.expiry st |}).
  { unfold store.put_zset. destruct zs'; [contradiction | reflexivity]. }
  rewrite Hput.
  set (st' := {| store.data := _; store.expiry := _ |}).
  destruct (store_queue_Expire st' key expire (store.ZSet zs'))
    as (Herr & Hdata & Hexp); [apply lookup_insert_eq |].
  destruct (store.exec_cmds (queue_Expire key expire) st') as [rs st''].
  cbn [fst snd] in *. cbn [store.first_error p_err store.done_int].
  split; [exact Herr |]. split; [| exact Hexp].
  unfold store.get_zset. rewrite Hdata. unfold st'. cbn [store.data].
  rewrite lookup_insert_eq. reflexivity.
Qed.

(** X11: on the reference store a successful [Set] or [Add] with
    [expire > 0] leaves the container key expiring after [expire]; with
    [expire <= 0] it leaves the key's expiry as it was, set or not. *)
Theorem writes_and_expiry {K V T : Type} {TK : Typex K} {TV : Typex V} {TT : Typex T}
    (st : store.Store) (h : hash_map.HashMap) (q : z_queue.ZQueue)
    (hmap : gmap string string) (zs : list redis_Z)
    (field : K) (value : V) (member : T) (score : int64) (expire : Duration) :
  store.get_hash st (hash_map.Key h) = inl hmap ->
  store.get_zset st (z_queue.Key q) = inl zs ->
  - 2 ^ 53 <= score <= 2 ^ 53 ->
  let after_Set := final (run store.client (call (hash_map.Set_ field value expire) h) st) in
  let after_Add := final (run store.client (call (z_queue.Add member score expire) q) st) in
  (0 < expire ->
   store.expiry after_Set !! hash_map.Key h = Some expire
   /\ store.expiry after_Add !! z_queue.Key q = Some expire)
  /\ (expire <= 0 ->
      store.expiry after_Set = store.expiry st
      /\ store.expiry after_Add = store.expiry st).
Proof.
  intros Hh Hz Hscore. cbv zeta.
  destruct (store_HSet st (hash_map.Key h) [(ToString field, ToString value)] expire hmap Hh)
    as (_ & _ & HexpS); [discriminate |].
  destruct (store_ZAdd st (z_queue.Key q)
              [ {| Z_Score := float64_of_int64 score; Z_Member := ToString member |} ]
              expire zs Hz) as (_ & _ & HexpA); [discriminate | |].
  { cbn [existsb Z_Score]. rewrite (float64_of_int64_not_nan score Hscore). reflexivity. }
  rewrite (Set_runs store.client st h field value expire).
  rewrite (Add_runs store.client st q member score expire).
  cbn [final]. rewrite HexpS, HexpA. split.
  - intros Hpos. destruct (0 <? expire) eqn:E; [| apply Z.ltb_ge in E; lia].
    rewrite !lookup_insert_eq. split; reflexivity.
  - intros Hle. destruct (0 <? expire) eqn:E; [apply Z.ltb_lt in E; lia |].
    split; reflexivity.
Qed.

Lemma writes_and_expiry_witness :
  let h := hash_map.NewHashMap "h" in
  let s1 := final (run store.client (call (hash_map.Set_ "f" "v" 30) h) store.empty) in
  store.expiry s1 !! "h" = Some 30
  /\ store.expiry (final (run store.client (call (hash_map.Set_ "g" "w" 0) h) s1)) !! "h"
     = Some 30.
Proof.
  cbv zeta.
  set (h := hash_map.NewHashMap "h").
  set (q := {| z_queue.Key := "q"; z_queue.Desc := false |}).
  set (s1 := final (run store.client (call (hash_map.Set_ "f" "v" 30) h) store.empty)).
  assert (Hb : - 2 ^ 53 <= 1 <= 2 ^ 53) by lia.
  destruct (writes_and_expiry (K := string) (V := string) (T := string)
              store.empty h q ∅ [] "f" "v" "m" 1 30 eq_refl eq_refl Hb) as [Hpos _].
  assert (Hh1 : store.get_hash s1 (hash_map.Key h) = inl {[ "f" := "v" ]})
    by (vm_compute; reflexivity).
  assert (Hz1 : store.get_zset s1 (z_queue.Key q) = inl []) by (vm_compute; reflexivity).
  destruct (writes_and_expiry (K := string) (V := string) (T := string)
              s1 h q _ [] "g" "w" "m" 1 0 Hh1 Hz1 Hb) as [_ Hkeep].
  split.
  - exact (proj1 (Hpos ltac:(lia))).
  - rewrite (proj1 (Hkeep ltac:(lia))). exact (proj1 (Hpos ltac:(lia))).
Defined.

(** HINCRBY on a field that holds the decimal text of [n], or on an absent
    field with [n = 0]. *)
Lemma store_HIncrBy (st : store.Store) (key field : string) (incr : int64)
    (expire : Duration) (hmap : gmap string string) (n : Z) :
  store.get_hash st key = inl hmap ->
  hmap !! field = None /\ n = 0 \/ hmap !! field = Some (format_int n) ->
  in_int64 n = true -> in_int64 (n + incr) = true ->
  reply store.client (Pipeline_Exec (P_HIncrBy key field incr :: queue_Expire key expire)) st
  = (store.done_int (n + incr)
       :: (store.exec_cmds (queue_Expire key expire)
             (store.put_hash st key (<[field := format_int (n + incr)]> hmap))).1,
     None)
  /\ store.get_hash
       (next store.client (Pipeline_Exec (P_HIncrBy key field incr :: queue_Expire key expire))
             st) key
     = inl (<[field := format_int (n + incr)]> hmap).
Proof.
  intros Hh Hfield Hn Hsum. unfold reply, next.
  cbn [store.client store.exec_cmds store.exec_cmd]. rewrite Hh.
  assert (Hold : from_option parse_int (Some 0) (hmap !! field) = Some n).
  { destruct Hfield as [[-> ->] | ->]; [reflexivity |]. apply parse_format_int. }
  rewrite Hold, Hn, Hsum.
  rewrite (store_put_hash_nonempty st key _ (insert_non_empty _ _ _)).
  set (st' := {| store.data := _; store.expiry := _ |}).
  destruct (store_queue_Expire st' key expire
              (store.Hash (<[field := format_int (n + incr)]> hmap)))
    as (Herr & Hdata & _); [apply lookup_insert_eq |].
  destruct (store.exec_cmds (queue_Expire key expire) st') as [rs st''].
  cbn [fst snd] in *. cbn [store.first_error p_err store.done_int]. rewrite Herr.
  split; [reflexivity |].
  unfold store.get_hash. rewrite Hdata. unfold st'. cbn [store.data].
  rewrite lookup_insert_eq. reflexivity.
Qed.

(** X12: on the reference store, for a field that holds the decimal text
    of [n] (an absent field counts as 0), [Incr] by [increment] returns
    [n + increment] with no error and leaves the field holding its decimal
    text, as long as [n + increment] is an int64; so increments add up. *)
Theorem Incr_adds {K : Type} {TK : Typex K}
    (st : store.Store) (h : hash_map.HashMap) (hmap : gmap string string)
    (field : K) (n increment : int64) (expire : Duration) :
  store.get_hash st (hash_map.Key h) = inl hmap ->
  hmap !! ToString field = None /\ n = 0 \/ hmap !! ToString field = Some (format_int n) ->
  in_int64 n = true ->
  in_int64 (n + increment) = true ->
  outcome (run store.client (call (hash_map.Incr field increment expire) h) st)
  = Returned ((n + increment, None), h)
  /\ store.get_hash
       (final (run store.client (call (hash_map.Incr field increment expire) h) st))
       (hash_map.Key h)
     = inl (<[ToString field := format_int (n + increment)]> hmap).
Proof.
  intros Hh Hfield Hn Hsum.
  destruct (store_HIncrBy st (hash_map.Key h) (ToString field) increment expire hmap n
              Hh Hfield Hn Hsum) as [Hreply Hnext].
  rewrite (Incr_runs store.client st h field increment expire). cbn [outcome final].
  rewrite Hreply. split; [reflexivity | exact Hnext].
Qed.

Lemma Incr_adds_witness :
  let h := hash_map.NewHashMap "h" in
  let s1 := final (run store.client (call (hash_map.Incr "f" 5 0) h) store.empty) in
  outcome (run store.client (call (hash_map.Incr "f" 5 0) h) store.empty)
  = Returned ((5, None), h)
  /\ outcome (run store.client (call (hash_map.Incr "f" 3 0) h) s1)
     = Returned ((8, None), h).
Proof.
  cbv zeta.
  set (h := hash_map.NewHashMap "h").
  destruct (Incr_adds (K := string) store.empty h ∅ "f" 0 5 0 eq_refl
              (or_introl (conj eq_refl eq_refl)) eq_refl eq_refl) as [H5 Hs1].
  split; [exact H5 |].
  exact (proj1 (Incr_adds (K := string) _ h _ "f" 5 3 0 Hs1
                  (or_intror (lookup_insert_eq _ _ _)) eq_refl eq_refl)).
Defined.


(** ** Sorted sets on the reference store *)

(** X13: on the reference store, for a key that holds nothing, a score
    [x] with [|x| <= 2^53] and a member [typex.ToAny] reads back, an
    [Add] followed by [PopMin] (or [PopMax]) returns exactly the element
    that was added, and the pop leaves the container empty again. *)
Theorem Add_then_Pop {T : Type} {TT : Typex T}
    (st : store.Store) (q : z_queue.ZQueue) (member : T) (x : int64) (expire : Duration) :
  store.get_zset st (z_queue.Key q) = inl [] ->
  - 2 ^ 53 <= x <= 2 ^ 53 ->
  ToAny (ToString member) = member ->
  let added := final (run store.client (call (z_queue.Add member x expire) q) st) in
  outcome (run store.client (call (z_queue.PopMin (T := T)) q) added)
  = Returned ((Some {| z_queue.Member := member; z_queue.Score := x |}, None), q)
  /\ outcome (run store.client (call (z_queue.PopMax (T := T)) q) added)
     = Returned ((Some {| z_queue.Member := member; z_queue.Score := x |}, None), q)
  /\ outcome (run store.client (call z_queue.Count_ q)
                (final (run store.client (call (z_queue.PopMin (T := T)) q) added)))
     = Returned ((0, None), q).
Proof.
  intros Hz Hx Hany. cbv zeta.
  set (z := {| Z_Score := float64_of_int64 x; Z_Member := ToString member |}).
  destruct (store_ZAdd_one st (z_queue.Key q) z expire [] Hz
              (float64_of_int64_not_nan x Hx)) as [_ Hnext].
  change (store.z_add z []) with [z] in Hnext.
  pose proof (Add_runs store.client st q member x expire) as Hadd.
  unfold runs_batch in Hadd. rewrite Hadd. cbn [final]. fold z.
  set (added := next store.client _ st) in *.
  assert (Helem : z_queue.redisZToElement (T := T) z
                  = {| z_queue.Member := member; z_queue.Score := x |}).
  { unfold z_queue.redisZToElement, z. cbn [Z_Member Z_Score].
    rewrite Hany, (int64_of_float64_of_int64 x Hx). reflexivity. }
  assert (Hpop : forall max : bool,
             store.pop added (z_queue.Key q) 1 max
             = (([z], None), store.remove_key added (z_queue.Key q))).
  { intros max. rewrite (store_pop_all added _ [z] 1 max Hnext) by (simpl; lia).
    destruct max; reflexivity. }
  split; [| split].
  - rewrite (PopMin_runs store.client added q). unfold reply. cbn [store.client].
    rewrite Hpop. unfold pop_one_result. cbn [outcome fst snd]. rewrite Helem. reflexivity.
  - rewrite (PopMax_runs store.client added q). unfold reply. cbn [store.client].
    rewrite Hpop. unfold pop_one_result. cbn [outcome fst snd]. rewrite Helem. reflexivity.
  - rewrite (PopMin_runs store.client added q). cbn [final].
    unfold next at 1. cbn [store.client]. rewrite Hpop. cbn [snd].
    rewrite (Count_runs store.client _ q). unfold reply. cbn [store.client outcome].
    unfold store.get_zset, store.remove_key. cbn [store.data].
    rewrite lookup_delete_eq. reflexivity.
Qed.

Lemma Add_then_Pop_witness :
  let q := {| z_queue.Key := "q"; z_queue.Desc := false |} in
  outcome (run store.client (call (z_queue.PopMin (T := int64)) q)
             (final (run store.client (call (z_queue.Add (7 : int64) (-3) 0) q) store.empty)))
  = Returned ((Some {| z_queue.Member := 7; z_queue.Score := -3 |}, None), q).
Proof.
  cbv zeta.
  refine (proj1 (Add_then_Pop (T := int64) store.empty
                   {| z_queue.Key := "q"; z_queue.Desc := false |} 7 (-3) 0 eq_refl _ eq_refl)).
  lia.
Defined.

Lemma range_by_score_rev (st : store.Store) (key minS maxS : string) :
  store.range_by_score st key {| Min := minS; Max := maxS; Offset := 0; Count := -1 |} true
  = (reverse (store.range_by_score st key
                {| Min := minS; Max := maxS; Offset := 0; Count := -1 |} false).1,
     (store.range_by_score st key
        {| Min := minS; Max := maxS; Offset := 0; Count := -1 |} false).2).
Proof.
  unfold store.range_by_score. cbn [Min Max].
  destruct (store.parse_bound minS) as [lo |]; [| reflexivity].
  destruct (store.parse_bound maxS) as [hi |]; [| reflexivity].
  destruct (store.get_zset st key) as [zs | e]; [| reflexivity].
  change 0%Z with (Z.of_nat 0). rewrite !paginate_all. reflexivity.
Qed.

Lemma redisZToElements_reverse {T : Type} {TT : Typex T} (zs : list redis_Z) :
  z_queue.redisZToElements (T := T) (reverse zs)
  = reverse (z_queue.redisZToElements (T := T) zs).
Proof.
  unfold z_queue.redisZToElements.
  change (@map redis_Z) with (@fmap list _ redis_Z). apply fmap_reverse.
Qed.

(** The outcome of a call with its elements in reverse order. *)
Lemma Rev_reverses (st : store.Store) {T : Type} {TT : Typex T} {TI : Typex int64}
    (q : z_queue.ZQueue) (minScore maxScore : int64) :
  outcome (run store.client
             (call (z_queue.rangeByScoreInternal (T := T) minScore maxScore 0 (-1)
                      (negb (z_queue.Desc q))) q) st)
  = match outcome (run store.client
                     (call (z_queue.rangeByScoreInternal (T := T) minScore maxScore 0 (-1)
                              (z_queue.Desc q)) q) st) with
    | Returned ((elements, err), q') => Returned ((reverse elements, err), q')
    | Panicked msg => Panicked msg
    end.
Proof.
  rewrite !(rangeByScoreInternal_runs store.client st q). cbn [outcome].
  assert (Hrev : reply store.client
                   (range_command true (z_queue.Key q) (range_opt minScore maxScore 0 (-1))) st
                 = (reverse (reply store.client
                      (range_command false (z_queue.Key q)
                         (range_opt minScore maxScore 0 (-1))) st).1,
                    (reply store.client
                      (range_command false (z_queue.Key q)
                         (range_opt minScore maxScore 0 (-1))) st).2)).
  { unfold reply, range_command. cbn [store.client fst]. apply range_by_score_rev. }
  destruct (z_queue.Desc q); cbn [negb]; rewrite Hrev;
    destruct (reply store.client
                (range_command false (z_queue.Key q) (range_opt minScore maxScore 0 (-1))) st)
      as [zs [e |]]; unfold range_result; cbn [fst snd]; try reflexivity.
  - rewrite redisZToElements_reverse, reverse_involutive. reflexivity.
  - rewrite redisZToElements_reverse. reflexivity.
Qed.

(** X14: on the reference store each unpaginated [Rev] call returns the
    elements of its base call in reverse order, with the same error:
    [RangeByScoreRev], [RangeFromScoreRev] and [RangeToScoreRev] against
    [RangeByScore], [RangeFromScore] and [RangeToScore]. *)
Theorem Rev_calls_reverse {T : Type} {TT : Typex T} {TI : Typex int64}
    (st : store.Store) (q : z_queue.ZQueue) (minScore maxScore : int64) :
  let reversed := fun o : Outcome (list (z_queue.Element T) * option error * z_queue.ZQueue) =>
                    match o with
                    | Returned ((elements, err), q') => Returned ((reverse elements, err), q')
                    | Panicked msg => Panicked msg
                    end in
  outcome (run store.client (call (z_queue.RangeByScoreRev (T := T) minScore maxScore) q) st)
  = reversed (outcome (run store.client
                         (call (z_queue.RangeByScore (T := T) minScore maxScore) q) st))
  /\ outcome (run store.client (call (z_queue.RangeFromScoreRev (T := T) minScore) q) st)
     = reversed (outcome (run store.client
                            (call (z_queue.RangeFromScore (T := T) minScore) q) st))
  /\ outcome (run store.client (call (z_queue.RangeToScoreRev (T := T) maxScore) q) st)
     = reversed (outcome (run store.client
                            (call (z_queue.RangeToScore (T := T) maxScore) q) st)).
Proof.
  cbv zeta.
  split; [exact (Rev_reverses st q minScore maxScore) |].
  split; [exact (Rev_reverses st q minScore (-1)) |].
  exact (Rev_reverses st q (-1) maxScore).
Qed.


Lemma store_get_put_zset (st : store.Store) (key : string) (zs : list redis_Z) :
  store.get_zset (store.put_zset st key zs) key = inl zs.
Proof.
  unfold store.put_zset, store.get_zset.
  destruct zs; cbn [store.data store.remove_key].
  - rewrite lookup_delete_eq. reflexivity.
  - rewrite lookup_insert_eq. reflexivity.
Qed.

Lemma z_find_remove (member : string) (zs : list redis_Z) :
  store.z_find member (store.z_remove member zs) = None.
Proof.
  unfold store.z_find, store.z_remove.
  induction zs as [| z zs IH]; [reflexivity |].
  destruct (decide (Z_Member z = member)) as [E | NE].
  - rewrite (filter_cons_False _ z zs) by (intros Hne; apply Hne, E). exact IH.
  - rewrite (filter_cons_True _ z zs) by exact NE.
    rewrite filter_cons_False by exact NE. exact IH.
Qed.

Lemma z_remove_absent (member : string) (zs : list redis_Z) :
  store.z_find member zs = None -> store.z_remove member zs = zs.
Proof.
  unfold store.z_find, store.z_remove.
  induction zs as [| z zs IH]; [reflexivity |].
  destruct (decide (Z_Member z = member)) as [E | NE].
  - rewrite (filter_cons_True (fun y => Z_Member y = member)) by exact E. discriminate.
  - rewrite (filter_cons_False (fun y => Z_Member y = member)) by exact NE.
    intros Hfind. rewrite filter_cons_True by exact NE. rewrite (IH Hfind). reflexivity.
Qed.

(** X15: on the reference store, for a key that holds a sorted set or
    nothing, [Remove] returns no error whether or not the member is
    there; afterwards [Score] of that member returns the [redis.Nil]
    error, and removing a member that was not there leaves the set as it
    was. *)
Theorem Remove_then_Score {T : Type} {TT : Typex T}
    (st : store.Store) (q : z_queue.ZQueue) (zs : list redis_Z) (member : T) :
  store.get_zset st (z_queue.Key q) = inl zs ->
  let removed := final (run store.client (call (z_queue.Remove member) q) st) in
  outcome (run store.client (call (z_queue.Remove member) q) st) = Returned (None, q)
  /\ outcome (run store.client (call (z_queue.Score_ member) q) removed)
     = Returned ((0, Some redis_Nil), q)
  /\ (store.z_find (ToString member) zs = None ->
      store.get_zset removed (z_queue.Key q) = inl zs).
Proof.
  intros Hz. cbv zeta.
  pose proof (Remove_runs store.client st q member) as Hrun.
  unfold runs_command in Hrun. rewrite Hrun. cbn [outcome final].
  assert (Hreply : reply store.client (ZRem (z_queue.Key q) [ToString member]) st = None).
  { unfold reply. cbn [store.client]. rewrite Hz. reflexivity. }
  assert (Hnext : store.get_zset
                    (next store.client (ZRem (z_queue.Key q) [ToString member]) st)
                    (z_queue.Key q)
                  = inl (store.z_remove (ToString member) zs)).
  { unfold next. cbn [store.client]. rewrite Hz. cbn [snd foldl].
    apply store_get_put_zset. }
  rewrite Hreply. split; [reflexivity |]. split.
  - rewrite (Score_runs store.client _ q member). cbn [outcome].
    rewrite (store_ZScore_absent _ _ _ _ Hnext (z_find_remove _ _)). reflexivity.
  - intros Habsent. rewrite Hnext, (z_remove_absent _ _ Habsent). reflexivity.
Qed.

Lemma Remove_then_Score_witness :
  let q := {| z_queue.Key := "q"; z_queue.Desc := false |} in
  let s1 := final (run store.client (call (z_queue.Add "a" 1 0) q) store.empty) in
  outcome (run store.client (call (z_queue.Score_ "a") q)
             (final (run store.client (call (z_queue.Remove "a") q) s1)))
  = Returned ((0, Some redis_Nil), q)
  /\ outcome (run store.client (call (z_queue.Remove "b") q) s1) = Returned (None, q).
Proof.
  cbv zeta.
  set (q := {| z_queue.Key := "q"; z_queue.Desc := false |}).
  set (s1 := final (run store.client (call (z_queue.Add "a" 1 0) q) store.empty)).
  assert (Hz : store.get_zset s1 (z_queue.Key q)
               = inl [ {| Z_Score := float64_of_int64 1; Z_Member := "a" |} ])
    by (vm_compute; reflexivity).
  split.
  - exact (proj1 (proj2 (Remove_then_Score (T := string) s1 q _ "a" Hz))).
  - exact (proj1 (Remove_then_Score (T := string) s1 q _ "b" Hz)).
Defined.

Lemma filter_none {A : Type} (l : list A) : List.filter (fun _ => false) l = [].
Proof. induction l; [reflexivity | exact IHl]. Qed.

(** X16: on the reference store, for a key that holds a sorted set or
    nothing, [RemoveRangeByScore("-inf", "+inf")] returns the number
    [Count] returned just before it, with no error, and [Count] right
    after it returns 0. *)
Theorem RemoveRangeByScore_everything
    (st : store.Store) (q : z_queue.ZQueue) (zs : list redis_Z) :
  store.get_zset st (z_queue.Key q) = inl zs ->
  outcome (run store.client (call z_queue.Count_ q) st)
  = Returned ((Z.of_nat (length zs), None), q)
  /\ outcome (run store.client (call (z_queue.RemoveRangeByScore "-inf" "+inf") q) st)
     = Returned ((Z.of_nat (length zs), None), q)
  /\ outcome (run store.client (call z_queue.Count_ q)
                (final (run store.client
                          (call (z_queue.RemoveRangeByScore "-inf" "+inf") q) st)))
     = Returned ((0, None), q).
Proof.
  intros Hz.
  assert (Hrem : store.client _ (ZRemRangeByScore (z_queue.Key q) "-inf" "+inf") st
                 = ((Z.of_nat (length zs), None), store.remove_key st (z_queue.Key q))).
  { cbn [store.client]. change (store.parse_bound "-inf") with (Some store.NegInf).
    change (store.parse_bound "+inf") with (Some store.PosInf). cbv iota beta. rewrite Hz.
    change (fun z : redis_Z => negb (store.in_window store.NegInf store.PosInf z))
      with (fun _ : redis_Z => false).
    rewrite filter_none. cbn [length store.put_zset]. rewrite Nat.sub_0_r. reflexivity. }
  split; [| split].
  - rewrite (Count_runs store.client st q). unfold reply. cbn [store.client outcome].
    rewrite Hz. reflexivity.
  - rewrite (RemoveRangeByScore_runs store.client st q). unfold reply. cbn [outcome].
    rewrite Hrem. reflexivity.
  - rewrite (RemoveRangeByScore_runs store.client st q). cbn [final]. unfold next at 1.
    rewrite Hrem. cbn [snd].
    rewrite (Count_runs store.client _ q). unfold reply. cbn [store.client outcome].
    unfold store.get_zset, store.remove_key. cbn [store.data].
    rewrite lookup_delete_eq. reflexivity.
Qed.

Lemma RemoveRangeByScore_everything_witness :
  let q := {| z_queue.Key := "q"; z_queue.Desc := false |} in
  let E := fun (m : string) (sc : int64) => {| z_queue.Member := m; z_queue.Score := sc |} in
  let s1 := final (run store.client
                     (call (z_queue.AddMulti [E "a" 1; E "b" 2; E "c" 3] 0) q) store.empty) in
  outcome (run store.client (call (z_queue.RemoveRangeByScore "-inf" "+inf") q) s1)
  = Returned ((3, None), q).
Proof.
  cbv zeta.
  set (q := {| z_queue.Key := "q"; z_queue.Desc := false |}).
  set (s1 := final (run store.client (call (z_queue.AddMulti _ 0) q) store.empty)).
  assert (Hz : store.get_zset s1 (z_queue.Key q)
               = inl [ {| Z_Score := float64_of_int64 1; Z_Member := "a" |};
                       {| Z_Score := float64_of_int64 2; Z_Member := "b" |};
                       {| Z_Score := float64_of_int64 3; Z_Member := "c" |} ])
    by (vm_compute; reflexivity).
  exact (proj1 (proj2 (RemoveRangeByScore_everything s1 q _ Hz))).
Defined.


(** ** Counting and ranging over one window *)

Lemma store_count_is_range_length (st : store.Store) (key minS maxS : string)
    (desc : bool) :
  exists (zs : list redis_Z) (err : option error),
    reply store.client
      (range_command desc key {| Min := minS; Max := maxS; Offset := 0; Count := -1 |}) st
    = (zs, err)
    /\ reply store.client (ZCount key minS maxS) st = (Z.of_nat (length zs), err)
    /\ (err <> None -> zs = []).
Proof.
  unfold reply, range_command.
  destruct desc; cbn [store.client fst]; unfold store.range_by_score; cbn [Min Max];
    (destruct (store.parse_bound minS) as [lo |];
     [| eexists [], _; split; [reflexivity | split; reflexivity]]);
    (destruct (store.parse_bound maxS) as [hi |];
     [| eexists [], _; split; [reflexivity | split; reflexivity]]);
    (destruct (store.get_zset st key) as [zs | e];
     [| eexists [], _; split; [reflexivity | split; reflexivity]]);
    change 0%Z with (Z.of_nat 0); rewrite paginate_all, drop_0;
    eexists _, None; (split; [reflexivity |]); (split; [| intros Hn; contradiction]).
  - rewrite length_reverse. reflexivity.
  - reflexivity.
Qed.

(** X17: on the reference store [CountByScore], given the two bound texts
    an unpaginated range call sends (the text of a bound, or ["-inf"] /
    ["+inf"] for the sentinel -1), returns the number of elements that
    range call returns, and the same error, in either direction. *)
Theorem CountByScore_counts_range {T : Type} {TT : Typex T} {TI : Typex int64}
    (st : store.Store) (q : z_queue.ZQueue) (minScore maxScore : int64) (desc : bool) :
  let minS := if negb (minScore =? -1) then ToString minScore else "-inf" in
  let maxS := if negb (maxScore =? -1) then ToString maxScore else "+inf" in
  exists (elements : list (z_queue.Element T)) (err : option error),
    outcome (run store.client
               (call (z_queue.rangeByScoreInternal (T := T) minScore maxScore 0 (-1) desc) q)
               st)
    = Returned ((elements, err), q)
    /\ outcome (run store.client (call (z_queue.CountByScore minS maxS) q) st)
       = Returned ((Z.of_nat (length elements), err), q).
Proof.
  cbv zeta.
  rewrite (rangeByScoreInternal_runs store.client st q).
  rewrite (CountByScore_runs store.client st q). cbn [outcome].
  destruct (store_count_is_range_length st (z_queue.Key q)
              (if negb (minScore =? -1) then ToString minScore else "-inf")
              (if negb (maxScore =? -1) then ToString maxScore else "+inf") desc)
    as (zs & err & Hrange & Hcount & Hnil).
  change {| Min := if negb (minScore =? -1) then ToString minScore else "-inf";
            Max := if negb (maxScore =? -1) then ToString maxScore else "+inf";
            Offset := 0; Count := -1 |}
    with (range_opt minScore maxScore 0 (-1)) in Hrange.
  rewrite Hrange, Hcount. unfold range_result. cbn [fst snd].
  destruct err as [e |].
  - rewrite (Hnil ltac:(discriminate)). exists [], (Some e). split; reflexivity.
  - exists (z_queue.redisZToElements zs), None. split; [reflexivity |].
    unfold z_queue.redisZToElements. rewrite length_map. reflexivity.
Qed.

(** ** Pops against the full range *)

Lemma filter_all {A : Type} (l : list A) : List.filter (fun _ => true) l = l.
Proof. induction l as [| a l IH]; [reflexivity | cbn; rewrite IH; reflexivity]. Qed.

Lemma store_full_range (st : store.Store) (key : string) (zs : list redis_Z)
    (desc : bool) {TI : Typex int64} :
  store.get_zset st key = inl zs ->
  reply store.client (range_command desc key (range_opt (-1) (-1) 0 (-1))) st
  = (if desc then reverse zs else zs, None).
Proof.
  intros Hz. unfold reply, range_command, range_opt.
  change (negb (-1 =? -1)) with false. cbv iota.
  destruct desc; cbn [store.client fst]; unfold store.range_by_score; cbn [Min Max];
    change (store.parse_bound "-inf") with (Some store.NegInf);
    change (store.parse_bound "+inf") with (Some store.PosInf); cbv iota beta;
    rewrite Hz;
    change (store.in_window store.NegInf store.PosInf) with (fun _ : redis_Z => true);
    rewrite filter_all; change 0%Z with (Z.of_nat 0); rewrite paginate_all, drop_0;
    reflexivity.
Qed.

Lemma redisZToElements_take {T : Type} {TT : Typex T} (n : nat) (zs : list redis_Z) :
  z_queue.redisZToElements (T := T) (take n zs)
  = take n (z_queue.redisZToElements (T := T) zs).
Proof.
  unfold z_queue.redisZToElements.
  change (@map redis_Z) with (@fmap list _ redis_Z). apply fmap_take.
Qed.

Lemma redisZToElements_drop {T : Type} {TT : Typex T} (n : nat) (zs : list redis_Z) :
  z_queue.redisZToElements (T := T) (drop n zs)
  = drop n (z_queue.redisZToElements (T := T) zs).
Proof.
  unfold z_queue.redisZToElements.
  change (@map redis_Z) with (@fmap list _ redis_Z). apply fmap_drop.
Qed.

Lemma reverse_take_front {A : Type} (n : nat) (l : list A) :
  reverse (take (length l - n) l) = drop n (reverse l).
Proof.
  destruct (decide (n <= length l)%nat) as [Hle | Hgt].
  - assert (Hsplit : reverse l
                     = reverse (drop (length l - n) l) ++ reverse (take (length l - n) l))
      by (rewrite <- reverse_app, take_drop; reflexivity).
    rewrite Hsplit, drop_app_length'; [reflexivity |].
    rewrite length_reverse, length_drop. lia.
  - replace (length l - n)%nat with 0%nat by lia.
    rewrite drop_ge by (rewrite length_reverse; lia). reflexivity.
Qed.

(** X18: on the reference store, for a key that holds a sorted set or
    nothing and [count >= 0], [PopMinMulti] returns the first [count]
    elements of the full ascending range and leaves the rest of it;
    [PopMaxMulti] returns the first [count] elements of the full
    descending range and leaves the rest of it; [PopMin] and [PopMax]
    return the head of those ranges, nil on an empty one. *)
Theorem pops_take_from_range {T : Type} {TT : Typex T} {TI : Typex int64}
    (st : store.Store) (q : z_queue.ZQueue) (zs : list redis_Z) (count : int64) :
  store.get_zset st (z_queue.Key q) = inl zs ->
  0 <= count ->
  let n := Z.to_nat count in
  let full := fun (desc : bool) (s : store.Store) =>
                outcome (run store.client
                           (call (z_queue.rangeByScoreInternal (T := T) (-1) (-1) 0 (-1) desc)
                              q) s) in
  let after := fun {A : Type} (m : Method z_queue.ZQueue A) =>
                 final (run store.client (call m q) st) in
  let ascending := z_queue.redisZToElements (T := T) zs in
  full false st = Returned ((ascending, None), q)
  /\ full true st = Returned ((reverse ascending, None), q)
  /\ outcome (run store.client (call (z_queue.PopMinMulti (T := T) count) q) st)
     = Returned ((take n ascending, None), q)
  /\ full false (after (z_queue.PopMinMulti (T := T) count))
     = Returned ((drop n ascending, None), q)
  /\ outcome (run store.client (call (z_queue.PopMaxMulti (T := T) count) q) st)
     = Returned ((take n (reverse ascending), None), q)
  /\ full true (after (z_queue.PopMaxMulti (T := T) count))
     = Returned ((drop n (reverse ascending), None), q)
  /\ outcome (run store.client (call (z_queue.PopMin (T := T)) q) st)
     = Returned ((head ascending, None), q)
  /\ outcome (run store.client (call (z_queue.PopMax (T := T)) q) st)
     = Returned ((head (reverse ascending), None), q).
Proof.
  intros Hz Hc. cbv beta zeta.
  assert (Hpop : forall (cnt : int64) (max : bool), 0 <= cnt ->
            store.pop st (z_queue.Key q) cnt max
            = ((take (Z.to_nat cnt) (if max then reverse zs else zs), None),
               store.put_zset st (z_queue.Key q)
                 (if max then take (length zs - Z.to_nat cnt) zs
                  else drop (Z.to_nat cnt) zs))).
  { intros cnt max Hcnt. unfold store.pop. rewrite Hz.
    rewrite (proj2 (Z.ltb_ge cnt 0)) by exact Hcnt. destruct max; reflexivity. }
  rewrite !(rangeByScoreInternal_runs store.client _ q).
  rewrite (PopMinMulti_runs store.client st q), (PopMaxMulti_runs store.client st q).
  rewrite (PopMin_runs store.client st q), (PopMax_runs store.client st q).
  cbn [outcome final]. unfold next, reply at 3 5 7 8.
  cbn [store.client]. rewrite !Hpop by lia. cbn [fst snd].
  rewrite !(store_full_range st _ zs _ Hz).
  rewrite (store_full_range _ _ _ false (store_get_put_zset st (z_queue.Key q) _)).
  rewrite (store_full_range _ _ _ true (store_get_put_zset st (z_queue.Key q) _)).
  unfold range_result, pop_one_result. cbn [fst snd].
  rewrite !redisZToElements_take, !redisZToElements_drop, reverse_take_front.
  rewrite !redisZToElements_reverse, redisZToElements_drop, redisZToElements_reverse.
  split; [reflexivity |]. split; [reflexivity |]. split; [reflexivity |].
  split; [reflexivity |]. split; [reflexivity |]. split; [reflexivity |].
  split.
  - destruct zs as [| z zs']; reflexivity.
  - rewrite <- redisZToElements_reverse.
    destruct (reverse zs) as [| z zs']; reflexivity.
Qed.

Lemma pops_take_from_range_witness :
  let q := {| z_queue.Key := "q"; z_queue.Desc := false |} in
  let E := fun (m : string) (sc : int64) => {| z_queue.Member := m; z_queue.Score := sc |} in
  let s1 := final (run store.client
                     (call (z_queue.AddMulti [E "c" 3; E "a" 1; E "b" 2] 0) q) store.empty) in
  outcome (run store.client (call (z_queue.PopMinMulti (T := string) 2) q) s1)
  = Returned ((take 2 [E "a" 1; E "b" 2; E "c" 3], None), q)
  /\ outcome (run store.client (call (z_queue.PopMax (T := string)) q) s1)
     = Returned ((head (reverse [E "a" 1; E "b" 2; E "c" 3]), None), q).
Proof.
  cbv zeta.
  set (q := {| z_queue.Key := "q"; z_queue.Desc := false |}).
  set (s1 := final (run store.client (call (z_queue.AddMulti _ 0) q) store.empty)).
  assert (Hz : store.get_zset s1 (z_queue.Key q)
               = inl [ {| Z_Score := float64_of_int64 1; Z_Member := "a" |};
                       {| Z_Score := float64_of_int64 2; Z_Member := "b" |};
                       {| Z_Score := float64_of_int64 3; Z_Member := "c" |} ])
    by (vm_compute; reflexivity).
  assert (Hc : 0 <= 2) by lia.
  pose proof (pops_take_from_range (T := string) s1 q _ 2 Hz Hc) as Hpops.
  cbv beta zeta in Hpops.
  destruct Hpops as (_ & _ & Hmin & _ & _ & _ & _ & Hmax).
  split; [rewrite Hmin | rewrite Hmax]; vm_compute; reflexivity.
Defined.

(** ** Removing several members *)

Lemma z_find_remove_other (member other : string) (zs : list redis_Z) :
  member <> other ->
  store.z_find member (store.z_remove other zs) = store.z_find member zs.
Proof.
  intros Hne. unfold store.z_find, store.z_remove. f_equal.
  induction zs as [| z zs IH]; [reflexivity |].
  destruct (decide (Z_Member z = other)) as [E | NE].
  - rewrite (filter_cons_False (fun y => Z_Member y ≠ other)) by (intros Hn; apply Hn, E).
    rewrite (filter_cons_False (fun y => Z_Member y = member)) by congruence.
    exact IH.
  - rewrite (filter_cons_True (fun y => Z_Member y ≠ other)) by exact NE.
    destruct (decide (Z_Member z = member)) as [E' | NE'].
    + rewrite !(filter_cons_True (fun y => Z_Member y = member)) by exact E'.
      rewrite IH. reflexivity.
    + rewrite !(filter_cons_False (fun y => Z_Member y = member)) by exact NE'.
      exact IH.
Qed.

Lemma z_find_remove_None (member other : string) (zs : list redis_Z) :
  store.z_find member zs = None -> store.z_find member (store.z_remove other zs) = None.
Proof.
  intros Hnone. destruct (decide (member = other)) as [-> | Hne].
  - apply z_find_remove.
  - rewrite z_find_remove_other by exact Hne. exact Hnone.
Qed.

Lemma z_find_foldl_remove (member : string) (members : list string) (zs : list redis_Z) :
  store.z_find member (foldl (fun l m => store.z_remove m l) zs members)
  = if bool_decide (member ∈ members) then None else store.z_find member zs.
Proof.
  revert zs. induction members as [| m members IH]; intros zs; [reflexivity |].
  cbn [foldl]. rewrite IH.
  destruct (decide (member = m)) as [-> | Hne].
  - rewrite (bool_decide_eq_true_2 (m ∈ m :: members)) by (left).
    rewrite z_find_remove. destruct (bool_decide (m ∈ members)); reflexivity.
  - rewrite z_find_remove_other by exact Hne.
    destruct (decide (member ∈ members)) as [Hin | Hnin].
    + rewrite !bool_decide_eq_true_2; [reflexivity | right; exact Hin | exact Hin].
    + rewrite !bool_decide_eq_false_2; [reflexivity | | exact Hnin].
      intros Hin. apply elem_of_cons in Hin as [-> | Hin]; [apply Hne; reflexivity |].
      apply Hnin, Hin.
Qed.

(** X19: on the reference store, for a key that holds a sorted set or
    nothing, [RemoveMulti] of one or more members returns no error whether
    or not they are there; afterwards [Score] of each of them returns the
    [redis.Nil] error, and [Score] of a member whose text was not named
    returns what it returned before. *)
Theorem RemoveMulti_then_Score {T : Type} {TT : Typex T}
    (st : store.Store) (q : z_queue.ZQueue) (zs : list redis_Z) (members : list T) :
  store.get_zset st (z_queue.Key q) = inl zs ->
  members <> [] ->
  let removed := final (run store.client (call (z_queue.RemoveMulti members) q) st) in
  outcome (run store.client (call (z_queue.RemoveMulti members) q) st) = Returned (None, q)
  /\ (forall member : T, member ∈ members ->
      outcome (run store.client (call (z_queue.Score_ member) q) removed)
      = Returned ((0, Some redis_Nil), q))
  /\ (forall member : T, ToString member ∉ map ToString members ->
      outcome (run store.client (call (z_queue.Score_ member) q) removed)
      = outcome (run store.client (call (z_queue.Score_ member) q) st)).
Proof.
  intros Hz Hne. cbv zeta.
  pose proof (RemoveMulti_runs store.client st q members) as Hrun.
  unfold runs_command in Hrun. rewrite Hrun. cbn [outcome final].
  assert (Hcons : exists m ms, map ToString members = m :: ms).
  { destruct members as [| m ms]; [contradiction | eexists _, _; reflexivity]. }
  destruct Hcons as (m0 & ms0 & Hms).
  assert (Hreply : reply store.client (ZRem (z_queue.Key q) (map ToString members)) st = None).
  { unfold reply. cbn [store.client]. rewrite Hms, Hz. reflexivity. }
  assert (Hnext : store.get_zset
                    (next store.client (ZRem (z_queue.Key q) (map ToString members)) st)
                    (z_queue.Key q)
                  = inl (foldl (fun l m => store.z_remove m l) zs (map ToString members))).
  { unfold next. cbn [store.client]. rewrite Hms, Hz. cbn [snd].
    apply store_get_put_zset. }
  rewrite Hreply. split; [reflexivity |]. split.
  - intros member Hin.
    rewrite (Score_runs store.client _ q member). cbn [outcome].
    rewrite (store_ZScore_absent _ _ _ _ Hnext); [reflexivity |].
    rewrite z_find_foldl_remove, bool_decide_eq_true_2; [reflexivity |].
    exact (list_elem_of_fmap_2 ToString members member Hin).
  - intros member Hnin.
    rewrite !(Score_runs store.client _ q member). cbn [outcome].
    assert (Hsame : reply store.client (ZScore (z_queue.Key q) (ToString member))
                      (next store.client (ZRem (z_queue.Key q) (map ToString members)) st)
                    = reply store.client (ZScore (z_queue.Key q) (ToString member)) st).
    { unfold reply at 1 2. cbn [store.client]. rewrite Hnext, Hz.
      rewrite z_find_foldl_remove, bool_decide_eq_false_2 by exact Hnin.
      destruct (store.z_find (ToString member) zs); reflexivity. }
    rewrite Hsame. reflexivity.
Qed.

Lemma RemoveMulti_then_Score_witness :
  let q := {| z_queue.Key := "q"; z_queue.Desc := false |} in
  let E := fun (m : string) (sc : int64) => {| z_queue.Member := m; z_queue.Score := sc |} in
  let s1 := final (run store.client
                     (call (z_queue.AddMulti [E "a" 1; E "b" 2; E "c" 3] 0) q) store.empty) in
  outcome (run store.client (call (z_queue.Score_ "a") q)
             (final (run store.client (call (z_queue.RemoveMulti ["a"; "zz"]) q) s1)))
  = Returned ((0, Some redis_Nil), q).
Proof.
  cbv zeta.
  set (q := {| z_queue.Key := "q"; z_queue.Desc := false |}).
  set (s1 := final (run store.client (call (z_queue.AddMulti _ 0) q) store.empty)).
  assert (Hz : store.get_zset s1 (z_queue.Key q)
               = inl [ {| Z_Score := float64_of_int64 1; Z_Member := "a" |};
                       {| Z_Score := float64_of_int64 2; Z_Member := "b" |};
                       {| Z_Score := float64_of_int64 3; Z_Member := "c" |} ])
    by (vm_compute; reflexivity).
  assert (Hne : ["a"; "zz"] <> @nil string) by discriminate.
  pose proof (RemoveMulti_then_Score (T := string) s1 q _ ["a"; "zz"] Hz Hne) as Hrm.
  cbv zeta in Hrm. destruct Hrm as (_ & Hnil & _).
  apply Hnil. left.
Defined.

